(** * Primality testing: Fermat and Miller-Rabin over modular exponentiation

    A shallow embedding of [fermat.py] (Python 3) and the properties of its
    functions [mod_exp], [fprobability], [mprobability], [run_fermat],
    [run_miller_rabin] and [prime_test].

    Python integers are unbounded and modelled by [Z].  Python floats are
    IEEE 754 binary64 values and modelled by [spec_float] with precision 53
    and maximal exponent 1024; they enter the program through the true
    division [/], which the source uses in the probability estimators and
    in the exponent halving of the Miller-Rabin descent. *)

From Stdlib Require Import ZArith String List Bool Lia Znumtheory QArith.
From Stdlib Require Import Floats.SpecFloat.
From Stdlib Require Import Zmod.ZmodInv.
Import ListNotations.

Open Scope Z_scope.

(** ** Python values and outcomes *)

(** The numbers that flow through the program: [int] and [float]. *)
Inductive pynum : Type :=
| PyInt (z : Z)
| PyFloat (f : spec_float).

(** The exceptions the program can raise. *)
Inductive exn : Type :=
| ValueError          (* random.randint on an empty range *)
| ZeroDivisionError   (* [%] or [/] by zero *)
| OverflowError       (* int / int too large for a float *)
| RecursionError.     (* recursion deeper than the interpreter's limit *)

(** The outcome of running a piece of code: a value, an exception, or no
    outcome within the allotted number of loop iterations. *)
Inductive outcome (A : Type) : Type :=
| Ok (a : A)
| Raise (e : exn)
| OutOfGas.

Arguments Ok {A} a.
Arguments Raise {A} e.
Arguments OutOfGas {A}.

(** ** Floating point: binary64 *)

Module Float.

Definition prec : Z := 53.
Definition emax : Z := 1024.

Definition normalize (m e : Z) : spec_float :=
  binary_normalize prec emax m e false.

(** The float nearest to an integer (exact up to 2^53). *)
Definition of_Z (z : Z) : spec_float := normalize z 0.

Definition zero : spec_float := S754_zero false.
Definition one : spec_float := of_Z 1.
Definition two : spec_float := of_Z 2.

Definition div : spec_float -> spec_float -> spec_float := SFdiv prec emax.
Definition sub : spec_float -> spec_float -> spec_float := SFsub prec emax.
Definition eqb : spec_float -> spec_float -> bool := SFeqb.
Definition ltb : spec_float -> spec_float -> bool := SFltb.
Definition leb : spec_float -> spec_float -> bool := SFleb.

Definition is_infinite (f : spec_float) : bool :=
  match f with S754_infinity _ => true | _ => false end.

(** An integer read as an exact operand of a division: mantissa of any
    size, exponent 0.  [SFdiv] computes the quotient of the two exact
    values and rounds it once, as CPython's int / int does. *)
Definition exact_of_Z (z : Z) : spec_float :=
  match z with
  | Z0 => S754_zero false
  | Zpos p => S754_finite false p 0
  | Zneg p => S754_finite true p 0
  end.

(** [floor (f / 2)], which is representable for every finite [f]:
    the value of [f // 2] for a float [f]. *)
Definition floordiv2 (f : spec_float) : spec_float :=
  match f with
  | S754_nan => S754_nan
  | S754_infinity _ => S754_nan
  | S754_zero s => S754_zero s
  | S754_finite s m e => normalize (Z.shiftr (cond_Zopp s (Zpos m)) (1 - e)) 0
  end.

(** [f - 2 * floor (f / 2)] rounded to nearest: the value of [f % 2]. *)
Definition mod2 (f : spec_float) : spec_float :=
  match f with
  | S754_nan => S754_nan
  | S754_infinity _ => S754_nan
  | S754_zero _ => S754_zero false
  | S754_finite s m e =>
      if 1 <=? e then S754_zero false
      else normalize (cond_Zopp s (Zpos m) mod 2 ^ (1 - e)) e
  end.

(** The exact rational value of a finite float. *)
Definition to_Q (f : spec_float) : option Q :=
  match f with
  | S754_zero _ => Some 0%Q
  | S754_finite s m e =>
      let v := cond_Zopp s (Zpos m) in
      Some (if 0 <=? e then inject_Z (v * 2 ^ e)
            else Qmake v (Z.to_pos (2 ^ (- e))))
  | _ => None
  end.

(** The integer a float denotes, when it denotes one. *)
Definition to_Z (f : spec_float) : option Z :=
  match f with
  | S754_zero _ => Some 0
  | S754_finite s m e =>
      let v := cond_Zopp s (Zpos m) in
      if 0 <=? e then Some (v * 2 ^ e)
      else if v mod 2 ^ (- e) =? 0 then Some (v / 2 ^ (- e)) else None
  | _ => None
  end.

End Float.

(** ** Python arithmetic on [int] and [float] *)

(** [y == 0] *)
Definition py_is_zero (y : pynum) : bool :=
  match y with
  | PyInt z => z =? 0
  | PyFloat f => Float.eqb f Float.zero
  end.

(** [y // 2] *)
Definition py_floordiv2 (y : pynum) : pynum :=
  match y with
  | PyInt z => PyInt (z / 2)
  | PyFloat f => PyFloat (Float.floordiv2 f)
  end.

(** [y % 2] *)
Definition py_mod2 (y : pynum) : pynum :=
  match y with
  | PyInt z => PyInt (z mod 2)
  | PyFloat f => PyFloat (Float.mod2 f)
  end.

(** [a % N] on integers: the sign of the result follows [N]. *)
Definition py_mod (a N : Z) : outcome Z :=
  if N =? 0 then Raise ZeroDivisionError else Ok (a mod N).

(** [a / b] on integers: the correctly rounded quotient. *)
Definition int_truediv (a b : Z) : outcome spec_float :=
  if b =? 0 then Raise ZeroDivisionError
  else
    let q := Float.div (Float.exact_of_Z a) (Float.exact_of_Z b) in
    if Float.is_infinite q then Raise OverflowError else Ok q.

(** [a / b] on floats. *)
Definition float_truediv (a b : spec_float) : outcome spec_float :=
  if Float.eqb b Float.zero then Raise ZeroDivisionError
  else Ok (Float.div a b).

(** [y / 2] *)
Definition py_truediv2 (y : pynum) : outcome pynum :=
  match y with
  | PyInt z =>
      match int_truediv z 2 with
      | Ok f => Ok (PyFloat f)
      | Raise e => Raise e
      | OutOfGas => OutOfGas
      end
  | PyFloat f =>
      match float_truediv f Float.two with
      | Ok g => Ok (PyFloat g)
      | Raise e => Raise e
      | OutOfGas => OutOfGas
      end
  end.

(** [float(z)] for an integer [z]: the nearest float, and [OverflowError]
    when [z] is too large for a float. *)
Definition int_to_float (z : Z) : outcome spec_float :=
  let f := Float.of_Z z in
  if Float.is_infinite f then Raise OverflowError else Ok f.

(** [2.0 ** k] for an integer [k < 0]: the float [2^k], which is 0.0 below
    half of the smallest positive float. *)
Definition float_pow2 (k : Z) : spec_float :=
  if k <? -1075 then Float.zero else Float.normalize 1 k.

(** [2 ** k] on integers: an [int] for [k >= 0]; for [k < 0] both operands
    are converted to floats, which raises [OverflowError] on a [k] too
    large for a float, and the result is the float power. *)
Definition py_pow2 (k : Z) : outcome pynum :=
  if 0 <=? k then Ok (PyInt (2 ^ k))
  else
    match int_to_float k with
    | Ok _ => Ok (PyFloat (float_pow2 k))
    | Raise e => Raise e
    | OutOfGas => OutOfGas
    end.

(** [4 ** k] on integers, likewise: [4.0 ** k] is [2.0 ** (2 * k)]. *)
Definition py_pow4 (k : Z) : outcome pynum :=
  if 0 <=? k then Ok (PyInt (4 ^ k))
  else
    match int_to_float k with
    | Ok _ => Ok (PyFloat (float_pow2 (2 * k)))
    | Raise e => Raise e
    | OutOfGas => OutOfGas
    end.

(** ** [mod_exp] *)

(** [limit] is the number of nested calls the interpreter allows. *)
Fixpoint mod_exp (limit : nat) (x : Z) (y : pynum) (N : Z) : outcome Z :=
  match limit with
  | O => Raise RecursionError
  | S limit' =>
      if py_is_zero y then Ok 1
      else
        match mod_exp limit' x (py_floordiv2 y) N with
        | Ok z =>
            if py_is_zero (py_mod2 y) then py_mod (z ^ 2) N
            else py_mod (x * z ^ 2) N
        | Raise e => Raise e
        | OutOfGas => OutOfGas
        end
  end.

(** ** The probability estimators *)

Definition bind_outcome {A B : Type} (o : outcome A) (k : A -> outcome B)
  : outcome B :=
  match o with
  | Ok a => k a
  | Raise e => Raise e
  | OutOfGas => OutOfGas
  end.

(** [1 / d] *)
Definition py_one_over (d : pynum) : outcome spec_float :=
  match d with
  | PyInt z => int_truediv 1 z
  | PyFloat f => float_truediv Float.one f
  end.

(** [1 - (1 / (2 ** k))] *)
Definition fprobability (k : Z) : outcome spec_float :=
  bind_outcome (py_pow2 k)
    (fun d => bind_outcome (py_one_over d)
                           (fun q => Ok (Float.sub Float.one q))).

(** [1 - (1 / (4 ** k))] *)
Definition mprobability (k : Z) : outcome spec_float :=
  bind_outcome (py_pow4 k)
    (fun d => bind_outcome (py_one_over d)
                           (fun q => Ok (Float.sub Float.one q))).

(** The real numbers the estimators are meant to compute. *)
Definition fermat_bound (k : Z) : Q := (1 - 1 / inject_Z (2 ^ k))%Q.
Definition miller_rabin_bound (k : Z) : Q := (1 - 1 / inject_Z (4 ^ k))%Q.

(** Comparisons of two results, as Python's [<] and [<=] on floats; a
    result that is no float compares false. *)
Definition outcome_ltb (o1 o2 : outcome spec_float) : bool :=
  match o1, o2 with
  | Ok f, Ok g => Float.ltb f g
  | _, _ => false
  end.

Definition outcome_leb (o1 o2 : outcome spec_float) : bool :=
  match o1, o2 with
  | Ok f, Ok g => Float.leb f g
  | _, _ => false
  end.

(** The result is a float whose value is exactly [q], and [0 <= q < 1]. *)
Definition exact_in_unit (o : outcome spec_float) (q : Q) : bool :=
  match o with
  | Ok f =>
      match Float.to_Q f with
      | Some v => Qeq_bool v q && Qle_bool 0 v && negb (Qle_bool 1 v)
      | None => false
      end
  | _ => false
  end.

(** The result is the float 1.0. *)
Definition returns_one (o : outcome spec_float) : bool :=
  match o with
  | Ok (S754_finite false m e) => Pos.eqb m (2 ^ 52) && (e =? -52)
  | _ => false
  end.

(** ** The two tests *)

(** What a run has done so far: how many witnesses it has drawn from the
    random source, and the calls it has made to [mod_exp], oldest first. *)
Record state : Type := {
  drawn : nat;
  calls : list (Z * pynum * Z)
}.

Definition initial : state := {| drawn := 0; calls := [] |}.

Definition M (A : Type) : Type := state -> outcome A * state.

Definition ret {A : Type} (a : A) : M A := fun s => (Ok a, s).

Definition bind {A B : Type} (m : M A) (k : A -> M B) : M B :=
  fun s =>
    match m s with
    | (Ok a, s') => k a s'
    | (Raise e, s') => (Raise e, s')
    | (OutOfGas, s') => (OutOfGas, s')
    end.

Definition lift {A : Type} (o : outcome A) : M A := fun s => (o, s).

Notation "x <- m ;; k" := (bind m (fun x => k))
  (at level 61, m at next level, right associativity).

(** [range(lo, hi)] *)
Definition py_range (lo hi : Z) : list Z :=
  map (fun i => lo + Z.of_nat i) (seq 0 (Z.to_nat (hi - lo))).

Section Tests.

(** The random source: [rnd i] is the raw value behind the [i]-th draw. *)
Variable rnd : nat -> Z.
(** The interpreter's bound on nested calls. *)
Variable limit : nat.
(** A bound on the iterations of the [while] loop that is observed. *)
Variable gas : nat.

(** [random.randint(lo, hi)]: an integer of [lo..hi], both included. *)
Definition randint (lo hi : Z) : M Z :=
  fun s =>
    if hi <? lo then (Raise ValueError, s)
    else (Ok (lo + rnd (drawn s) mod (hi - lo + 1)),
          {| drawn := S (drawn s); calls := calls s |}).

(** A call of [mod_exp] by one of the tests, recorded in the state. *)
Definition call_mod_exp (x : Z) (y : pynum) (N : Z) : M Z :=
  fun s =>
    (mod_exp limit x y N,
     {| drawn := drawn s; calls := calls s ++ [(x, y, N)] |}).

Fixpoint fermat_loop (N : Z) (trials : list Z) : M string :=
  match trials with
  | [] => ret "prime"%string
  | _ :: rest =>
      a <- randint 1 (N - 1) ;;
      r <- call_mod_exp a (PyInt (N - 1)) N ;;
      if negb (r =? 1) then ret "composite"%string
      else fermat_loop N rest
  end.

Definition run_fermat (N k : Z) : M string :=
  fermat_loop N (py_range 1 k).

(** The [while] loop of [run_miller_rabin], from the values of
    [exponent] and [z] on entry to their values on exit. *)
Fixpoint descent (g : nat) (a N : Z) (exponent : pynum) (z : Z)
  : M (pynum * Z) :=
  if py_is_zero (py_mod2 exponent) && (z =? 1) then
    match g with
    | O => lift OutOfGas
    | S g' =>
        exponent' <- lift (py_truediv2 exponent) ;;
        z' <- call_mod_exp a exponent' N ;;
        descent g' a N exponent' z'
    end
  else ret (exponent, z).

Fixpoint miller_rabin_loop (N : Z) (trials : list Z) : M string :=
  match trials with
  | [] => ret "prime"%string
  | _ :: rest =>
      a <- randint 1 (N - 1) ;;
      r <- call_mod_exp a (PyInt (N - 1)) N ;;
      if r =? 1 then
        ez <- descent gas a N (PyInt (N - 1)) 1 ;;
        m <- lift (py_mod (snd ez) N) ;;
        if negb (m =? N - 1) && negb (m =? 1) then ret "composite"%string
        else miller_rabin_loop N rest
      else ret "composite"%string
  end.

Definition run_miller_rabin (N k : Z) : M string :=
  miller_rabin_loop N (py_range 1 k).

Definition prime_test (N k : Z) : M (string * string) :=
  f <- run_fermat N k ;;
  m <- run_miller_rabin N k ;;
  ret (f, m).

End Tests.

(** ** The trace of a run *)

(** The witness that the [i]-th draw of the random source gives on [N]:
    the value of [random.randint(1, N - 1)] there. *)
Definition witness_at (rnd : nat -> Z) (N : Z) (i : nat) : Z :=
  1 + rnd i mod (N - 1 - 1 + 1).

(** [c] is a call of [mod_exp] on modulus [N] whose base is the witness of
    a draw numbered from [lo] up to, not including, [hi]. *)
Definition call_of (rnd : nat -> Z) (N : Z) (lo hi : nat)
  (c : Z * pynum * Z) : Prop :=
  exists i, (lo <= i < hi)%nat
            /\ fst (fst c) = witness_at rnd N i /\ snd c = N.

(** The witness [a] passes Fermat's test on [N]. *)
Definition passes_fermat (N a : Z) : bool := a ^ (N - 1) mod N =? 1.

(** The calls of [s'] are those of [s] followed by calls that satisfy
    [P]. *)
Definition extends (P : Z * pynum * Z -> Prop) (s s' : state) : Prop :=
  exists l, calls s' = calls s ++ l /\ Forall P l.

(** ** A prime modulus beyond the exact range of binary64 *)

(** Half of [big_prime - 1] is [3^54], an odd number of 86 bits. *)
Definition big_prime : Z := 2 * 3 ^ 54 + 1.

(** * Properties *)

(** ** Modular exponentiation *)

Lemma pow_halves (x y : Z) :
  0 <= y -> x ^ y = (x ^ (y / 2)) ^ 2 * x ^ (y mod 2).
Proof.
  intros Hy.
  assert (H2 : 0 <= y / 2) by (apply Z.div_pos; lia).
  assert (Hm : 0 <= y mod 2 < 2) by (apply Z.mod_pos_bound; lia).
  rewrite <- Z.pow_mul_r by lia.
  rewrite <- Z.pow_add_r by lia.
  f_equal. pose proof (Z.div_mod y 2). lia.
Qed.

Lemma sq_mod (a N : Z) : (a mod N) ^ 2 mod N = a ^ 2 mod N.
Proof.
  rewrite !Z.pow_2_r. symmetry. apply Zmult_mod.
Qed.

Lemma mod_exp_unfold (limit : nat) (x : Z) (y : pynum) (N : Z) :
  mod_exp (S limit) x y N =
  if py_is_zero y then Ok 1
  else match mod_exp limit x (py_floordiv2 y) N with
       | Ok z => if py_is_zero (py_mod2 y)
                 then py_mod (z ^ 2) N else py_mod (x * z ^ 2) N
       | Raise e => Raise e
       | OutOfGas => OutOfGas
       end.
Proof. reflexivity. Qed.

(** On an integer exponent that fits the recursion limit, and a modulus
    other than 0, [mod_exp] returns 1 at exponent 0 and the reduced power
    at every other exponent. *)
Lemma mod_exp_int_spec (limit : nat) :
  forall x y N,
    0 <= y < 2 ^ Z.of_nat limit -> N <> 0 ->
    exists r, mod_exp (S limit) x (PyInt y) N = Ok r
              /\ (y = 0 -> r = 1)
              /\ (0 < y -> r = x ^ y mod N).
Proof.
  induction limit as [|l IH]; intros x y N Hy HN.
  - assert (y = 0) by (simpl in Hy; lia). subst y.
    exists 1. simpl. repeat split; auto; lia.
  - destruct (Z.eq_dec y 0) as [->|Hy0].
    + exists 1. simpl. repeat split; auto; lia.
    + assert (Hhalf : 0 <= y / 2 < 2 ^ Z.of_nat l).
      { rewrite Nat2Z.inj_succ, Z.pow_succ_r in Hy by lia.
        split; [apply Z.div_pos; lia | apply Z.div_lt_upper_bound; lia]. }
      destruct (IH x (y / 2) N Hhalf HN) as (z & Hz & Hz0 & Hzpos).
      assert (Hm : 0 <= y mod 2 < 2) by (apply Z.mod_pos_bound; lia).
      assert (Hzmod : z ^ 2 mod N = (x ^ (y / 2)) ^ 2 mod N).
      { destruct (Z.eq_dec (y / 2) 0) as [E|E].
        - rewrite E, (Hz0 E). reflexivity.
        - rewrite Hzpos by lia. apply sq_mod. }
      rewrite mod_exp_unfold.
      cbn [py_is_zero py_floordiv2 py_mod2].
      destruct (Z.eqb_spec y 0) as [|_]; [contradiction|].
      rewrite Hz. unfold py_mod.
      destruct (Z.eqb_spec N 0) as [|_]; [contradiction|].
      rewrite (pow_halves x y) by lia.
      destruct (Z.eqb_spec (y mod 2) 0) as [E|E].
      * eexists; split; [reflexivity|]. split; [lia|]. intros _.
        rewrite E, Z.pow_0_r, Z.mul_1_r. exact Hzmod.
      * eexists; split; [reflexivity|]. split; [lia|]. intros _.
        replace (y mod 2) with 1 by lia. rewrite Z.pow_1_r.
        rewrite (Z.mul_comm _ x).
        rewrite <- Zmult_mod_idemp_r, Hzmod, Zmult_mod_idemp_r. reflexivity.
Qed.

(** C1, as amended.  For integers [x], [y >= 0] and [N >= 1], with a
    recursion limit that the bit length of [y] fits in: [mod_exp x y N]
    returns 1 when [y = 0], for every [x] and every [N], and [x^y mod N]
    otherwise; whenever [y >= 1] or [N >= 2] this is [x^y mod N] and lies in
    [0, N-1]; for [N = 1] every result at [y >= 1] is 0. *)
Theorem mod_exp_correct (limit : nat) (x y N : Z) :
  0 <= y < 2 ^ (Z.of_nat limit - 1) -> 1 <= N ->
  mod_exp limit x (PyInt y) N = Ok (if y =? 0 then 1 else x ^ y mod N)
  /\ (1 <= y \/ 2 <= N ->
      mod_exp limit x (PyInt y) N = Ok (x ^ y mod N)
      /\ 0 <= x ^ y mod N <= N - 1)
  /\ (N = 1 -> 1 <= y -> mod_exp limit x (PyInt y) N = Ok 0).
Proof.
  intros Hy HN.
  destruct limit as [|l].
  { simpl in Hy. lia. }
  replace (Z.of_nat (S l) - 1) with (Z.of_nat l) in Hy by lia.
  destruct (mod_exp_int_spec l x y N Hy ltac:(lia)) as (r & Hr & H0 & Hpos).
  assert (Hbound : 0 <= x ^ y mod N < N) by (apply Z.mod_pos_bound; lia).
  assert (Hmain : mod_exp (S l) x (PyInt y) N
                  = Ok (if y =? 0 then 1 else x ^ y mod N)).
  { rewrite Hr. destruct (Z.eqb_spec y 0) as [E|E].
    - now rewrite (H0 E).
    - now rewrite Hpos by lia. }
  split; [exact Hmain|]. split.
  - intros Hor. split; [|lia].
    rewrite Hmain. destruct (Z.eqb_spec y 0) as [E|E]; [|reflexivity].
    subst y. rewrite Z.pow_0_r, Z.mod_1_l by lia. reflexivity.
  - intros -> Hy1. rewrite Hmain.
    destruct (Z.eqb_spec y 0) as [E|E]; [lia|].
    now rewrite Z.mod_1_r.
Qed.

Lemma mod_exp_correct_witness :
  mod_exp 8 3 (PyInt 5) 7 = Ok (3 ^ 5 mod 7) /\ 0 <= 3 ^ 5 mod 7 <= 7 - 1.
Proof.
  apply (mod_exp_correct 8 3 5 7); [vm_compute; intuition discriminate | lia | lia].
Defined.

(** C1, as stated, fails at exponent 0 and modulus 1: the result is 1,
    which is neither [0^0 mod 1] nor a member of [0, N-1]. *)
Lemma mod_exp_zero_exponent_modulus_one :
  mod_exp 8 0 (PyInt 0) 1 = Ok 1
  /\ 0 ^ 0 mod 1 = 0
  /\ ~ (0 <= 1 <= 1 - 1).
Proof.
  split; [reflexivity|]. split; [reflexivity|]. lia.
Qed.

(** ** The trial loops *)

Lemma py_range_length (lo hi : Z) :
  length (py_range lo hi) = Z.to_nat (hi - lo).
Proof.
  unfold py_range. now rewrite length_map, length_seq.
Qed.

Lemma py_range_empty (lo hi : Z) : hi <= lo -> py_range lo hi = [].
Proof.
  intros H. unfold py_range.
  replace (Z.to_nat (hi - lo)) with 0%nat by lia. reflexivity.
Qed.

Lemma py_range_nonempty (lo hi : Z) : lo < hi -> py_range lo hi <> [].
Proof.
  intros H E. apply (f_equal (@length Z)) in E.
  rewrite py_range_length in E. simpl in E. lia.
Qed.

Section TestFacts.

Variable rnd : nat -> Z.
Variable limit gas : nat.

(** Every witness lies in [1, N-1]. *)
Lemma randint_range (lo hi : Z) (s s' : state) (a : Z) :
  randint rnd lo hi s = (Ok a, s') ->
  lo <= a <= hi /\ drawn s' = S (drawn s) /\ calls s' = calls s.
Proof.
  unfold randint. destruct (Z.ltb_spec hi lo) as [H|H]; [discriminate|].
  intros E. injection E as <- <-. cbn.
  pose proof (Z.mod_pos_bound (rnd (drawn s)) (hi - lo + 1) ltac:(lia)).
  repeat split; lia.
Qed.

Lemma randint_empty (lo hi : Z) (s : state) :
  hi < lo -> randint rnd lo hi s = (Raise ValueError, s).
Proof.
  intros H. unfold randint.
  destruct (Z.ltb_spec hi lo); [reflexivity | lia].
Qed.

(** With no trial to run, each loop answers "prime" and does nothing. *)
Lemma fermat_loop_nil (N : Z) (s : state) :
  fermat_loop rnd limit N [] s = (Ok "prime"%string, s).
Proof. reflexivity. Qed.

Lemma miller_rabin_loop_nil (N : Z) (s : state) :
  miller_rabin_loop rnd limit gas N [] s = (Ok "prime"%string, s).
Proof. reflexivity. Qed.

(** On a modulus below 2 the first draw of a trial raises. *)
Lemma fermat_loop_small_modulus (N : Z) (trials : list Z) (s : state) :
  N < 2 -> trials <> [] ->
  fermat_loop rnd limit N trials s = (Raise ValueError, s).
Proof.
  intros HN Ht. destruct trials as [|i rest]; [contradiction|].
  cbn [fermat_loop]. unfold bind at 1.
  rewrite randint_empty by lia. reflexivity.
Qed.

Lemma miller_rabin_loop_small_modulus (N : Z) (trials : list Z) (s : state) :
  N < 2 -> trials <> [] ->
  miller_rabin_loop rnd limit gas N trials s = (Raise ValueError, s).
Proof.
  intros HN Ht. destruct trials as [|i rest]; [contradiction|].
  cbn [miller_rabin_loop]. unfold bind at 1.
  rewrite randint_empty by lia. reflexivity.
Qed.

(** A loop draws at most one witness per element of its range. *)
Lemma fermat_loop_draws (N : Z) (trials : list Z) :
  forall s, (drawn (snd (fermat_loop rnd limit N trials s))
             <= drawn s + length trials)%nat.
Proof.
  induction trials as [|i rest IH]; intros s.
  - cbn. lia.
  - cbn [fermat_loop length]. unfold bind at 1.
    destruct (randint rnd 1 (N - 1) s) as [[a| |] s1] eqn:Ea.
    + apply randint_range in Ea. destruct Ea as (_ & Hd & _).
      unfold bind at 1. unfold call_mod_exp at 1.
      destruct (mod_exp limit a (PyInt (N - 1)) N) as [r| |]; cbn [snd drawn].
      * destruct (negb (r =? 1)).
        -- cbn. lia.
        -- etransitivity; [apply IH|]. cbn. lia.
      * lia.
      * lia.
    + unfold randint in Ea. destruct (N - 1 <? 1); inversion Ea; subst.
      cbn. lia.
    + unfold randint in Ea. destruct (N - 1 <? 1); inversion Ea.
Qed.

(** The descent draws no witness. *)
Lemma descent_drawn (g : nat) (a N : Z) :
  forall exponent z s,
    drawn (snd (descent limit g a N exponent z s)) = drawn s.
Proof.
  induction g as [|g IH]; intros exponent z s.
  - cbn [descent].
    destruct (py_is_zero (py_mod2 exponent) && (z =? 1)); reflexivity.
  - cbn [descent].
    destruct (py_is_zero (py_mod2 exponent) && (z =? 1)); [|reflexivity].
    unfold bind at 1, lift.
    destruct (py_truediv2 exponent) as [e'| |]; try reflexivity.
    unfold bind at 1. unfold call_mod_exp at 1.
    destruct (mod_exp limit a e' N) as [z'| |]; try reflexivity.
    now rewrite IH.
Qed.

Lemma miller_rabin_loop_draws (N : Z) (trials : list Z) :
  forall s, (drawn (snd (miller_rabin_loop rnd limit gas N trials s))
             <= drawn s + length trials)%nat.
Proof.
  induction trials as [|i rest IH]; intros s.
  - cbn. lia.
  - cbn [miller_rabin_loop length]. unfold bind at 1.
    destruct (randint rnd 1 (N - 1) s) as [[a| |] s1] eqn:Ea.
    + apply randint_range in Ea. destruct Ea as (_ & Hd & _).
      unfold bind at 1. unfold call_mod_exp at 1.
      destruct (mod_exp limit a (PyInt (N - 1)) N) as [r| |];
        cbn [snd drawn]; try lia.
      destruct (r =? 1); [|cbn; lia].
      unfold bind at 1.
      match goal with
      | |- context [descent limit gas a N ?e ?z ?s0] =>
          pose proof (descent_drawn gas a N e z s0) as Hdd;
          destruct (descent limit gas a N e z s0) as [[ez| |] s2]
      end; cbn [snd] in Hdd; cbn [snd drawn] in *; try lia.
      unfold bind at 1, lift.
      destruct (py_mod (snd ez) N) as [m| |]; cbn [snd]; try lia.
      destruct (negb (m =? N - 1) && negb (m =? 1)).
      * cbn. lia.
      * etransitivity; [apply IH|]. lia.
    + unfold randint in Ea. destruct (N - 1 <? 1); inversion Ea; subst.
      cbn. lia.
    + unfold randint in Ea. destruct (N - 1 <? 1); inversion Ea.
Qed.

End TestFacts.

(** ** The calls a run makes *)

Lemma call_of_weaken (rnd : nat -> Z) (N : Z) (lo hi lo' hi' : nat) c :
  (lo' <= lo)%nat -> (hi <= hi')%nat ->
  call_of rnd N lo hi c -> call_of rnd N lo' hi' c.
Proof.
  intros Hlo Hhi (i & Hi & Hc). exists i. split; [lia | exact Hc].
Qed.

Section Traces.

Variable rnd : nat -> Z.
Variable limit gas : nat.

Lemma randint_witness (N : Z) (s s' : state) (a : Z) :
  randint rnd 1 (N - 1) s = (Ok a, s') ->
  a = witness_at rnd N (drawn s)
  /\ s' = {| drawn := S (drawn s); calls := calls s |}.
Proof.
  unfold randint. destruct (N - 1 <? 1); [discriminate|].
  intros E. injection E as <- <-. split; reflexivity.
Qed.

Lemma randint_no_outcome (lo hi : Z) (s s' : state) :
  randint rnd lo hi s <> (OutOfGas, s').
Proof. unfold randint. destruct (hi <? lo); discriminate. Qed.

Lemma randint_raise (lo hi : Z) (s s' : state) (e : exn) :
  randint rnd lo hi s = (Raise e, s') -> s' = s.
Proof.
  unfold randint. destruct (hi <? lo); [|discriminate].
  intros E. now injection E.
Qed.

Lemma extends_refl P s : extends P s s.
Proof. exists []. split; [now rewrite app_nil_r | constructor]. Qed.

Lemma extends_trans (P : Z * pynum * Z -> Prop) s1 s2 s3 :
  extends P s1 s2 -> extends P s2 s3 -> extends P s1 s3.
Proof.
  intros (l & Hl & Hall) (l' & Hl' & Hall'). exists (l ++ l'). split.
  - now rewrite Hl', Hl, app_assoc.
  - apply Forall_app. now split.
Qed.

Lemma extends_impl (P Q : Z * pynum * Z -> Prop) s s' :
  (forall c, P c -> Q c) -> extends P s s' -> extends Q s s'.
Proof.
  intros HPQ (l & Hl & Hall). exists l. split; [exact Hl|].
  eapply Forall_impl; [exact HPQ | exact Hall].
Qed.

Lemma call_mod_exp_extends (P : Z * pynum * Z -> Prop) x y N s o s' :
  call_mod_exp limit x y N s = (o, s') ->
  P (x, y, N) -> drawn s' = drawn s /\ extends P s s'.
Proof.
  unfold call_mod_exp. intros E HP. injection E as _ <-.
  split; [reflexivity|]. exists [(x, y, N)]. split; [reflexivity|].
  constructor; [exact HP | constructor].
Qed.


(** The descent calls [mod_exp] on the witness and modulus it was given
    and draws nothing. *)
Lemma descent_trace (g : nat) (a N : Z) :
  forall exponent z s o s',
    descent limit g a N exponent z s = (o, s') ->
    drawn s' = drawn s
    /\ extends (fun c => fst (fst c) = a /\ snd c = N) s s'.
Proof.
  induction g as [|g IH]; intros exponent z s o s' H.
  - cbn [descent] in H.
    destruct (py_is_zero (py_mod2 exponent) && (z =? 1));
      injection H as _ <-; (split; [reflexivity | apply extends_refl]).
  - cbn [descent] in H.
    destruct (py_is_zero (py_mod2 exponent) && (z =? 1));
      [|injection H as _ <-; split; [reflexivity | apply extends_refl]].
    unfold bind at 1, lift in H.
    destruct (py_truediv2 exponent) as [e'| |];
      try (injection H as _ <-; split; [reflexivity | apply extends_refl]).
    unfold bind at 1 in H.
    destruct (call_mod_exp limit a e' N s) as [oz s2] eqn:Ec.
    apply (call_mod_exp_extends
             (fun c => fst (fst c) = a /\ snd c = N)) in Ec;
      [|split; reflexivity].
    destruct Ec as [Hd2 Hx2].
    destruct oz as [z'| |];
      try (injection H as _ <-; split; assumption).
    apply IH in H. destruct H as [Hd Hx].
    split; [congruence|]. now apply extends_trans with s2.
Qed.

(** [run_miller_rabin] calls [mod_exp] on the witnesses it draws and on
    the modulus [N] only. *)
Lemma miller_rabin_loop_trace (N : Z) (trials : list Z) :
  forall s o s',
    miller_rabin_loop rnd limit gas N trials s = (o, s') ->
    (drawn s <= drawn s')%nat
    /\ extends (call_of rnd N (drawn s) (drawn s')) s s'.
Proof.
  induction trials as [|i rest IH]; intros s o s' H.
  - cbn in H. injection H as _ <-. split; [lia | apply extends_refl].
  - cbn [miller_rabin_loop] in H. unfold bind at 1 in H.
    destruct (randint rnd 1 (N - 1) s) as [[a| |] s1] eqn:Ea.
    + apply randint_witness in Ea. destruct Ea as [-> ->].
      set (a := witness_at rnd N (drawn s)) in *.
      assert (Ha : forall y, call_of rnd N (drawn s) (S (drawn s))
                                     (a, y, N)).
      { intros y. exists (drawn s). repeat split; lia. }
      unfold bind at 1 in H.
      destruct (call_mod_exp limit a (PyInt (N - 1)) N _)
        as [or s2] eqn:Ec.
      apply (call_mod_exp_extends
               (call_of rnd N (drawn s) (S (drawn s)))) in Ec;
        [|apply Ha].
      destruct Ec as [Hd2 Hx2]. cbn [drawn] in Hd2.
      assert (Hstop : (drawn s <= drawn s2)%nat
                      /\ extends (call_of rnd N (drawn s) (drawn s2)) s s2).
      { split; [lia|]. now rewrite Hd2. }
      destruct or as [r| |]; try (injection H as _ <-; exact Hstop).
      destruct (r =? 1); [|injection H as _ <-; exact Hstop].
      unfold bind at 1 in H.
      destruct (descent limit gas a N (PyInt (N - 1)) 1 s2)
        as [oez s3] eqn:Ed.
      apply descent_trace in Ed. destruct Ed as [Hd3 Hx3].
      assert (Hdesc : (drawn s <= drawn s3)%nat
                      /\ extends (call_of rnd N (drawn s) (drawn s3)) s s3).
      { split; [lia|]. apply extends_trans with s2.
        - rewrite Hd3. exact (proj2 Hstop).
        - eapply extends_impl; [|exact Hx3].
          intros [[x y] n] [Hx Hn]. cbn in Hx, Hn. subst x n.
          rewrite Hd3, Hd2. apply Ha. }
      destruct oez as [ez| |]; try (injection H as _ <-; exact Hdesc).
      unfold bind at 1, lift in H.
      destruct (py_mod (snd ez) N) as [m| |];
        try (injection H as _ <-; exact Hdesc).
      destruct (negb (m =? N - 1) && negb (m =? 1));
        [injection H as _ <-; exact Hdesc|].
      apply IH in H. destruct H as [Hd Hx].
      split; [lia|].
      apply extends_trans with s3.
      * eapply extends_impl; [|exact (proj2 Hdesc)].
        intros c. apply call_of_weaken; lia.
      * eapply extends_impl; [|exact Hx].
        intros c. apply call_of_weaken; lia.
    + apply randint_raise in Ea. subst s1. injection H as _ <-.
      split; [lia | apply extends_refl].
    + now apply randint_no_outcome in Ea.
Qed.

End Traces.

(** ** The verdict of [run_fermat] *)

(** The value of [mod_exp] on an integer exponent within the limit: the
    reduced power, on every modulus from 2 on and, at exponents from 1 on,
    on every modulus other than 0. *)
Lemma mod_exp_value (limit : nat) (x y N : Z) :
  0 <= y < 2 ^ (Z.of_nat limit - 1) ->
  2 <= N \/ (N <> 0 /\ 1 <= y) ->
  mod_exp limit x (PyInt y) N = Ok (x ^ y mod N).
Proof.
  intros Hy HN. destruct limit as [|l]; [cbn in Hy; lia|].
  replace (Z.of_nat (S l) - 1) with (Z.of_nat l) in Hy by lia.
  destruct (mod_exp_int_spec l x y N Hy ltac:(lia)) as (r & Hr & H0 & Hpos).
  rewrite Hr. f_equal.
  destruct (Z.eq_dec y 0) as [E|E].
  - rewrite (H0 E), E, Z.pow_0_r, Z.mod_1_l by lia. reflexivity.
  - apply Hpos. lia.
Qed.

Lemma forallb_pointwise {A : Type} (f g : A -> bool) (l : list A) :
  (forall x, f x = g x) -> forallb f l = forallb g l.
Proof.
  intros H. induction l as [|x l IH]; [reflexivity|].
  cbn [forallb]. now rewrite H, IH.
Qed.

Lemma forallb_seq_shift (f : nat -> bool) (start len : nat) :
  forallb f (seq (S start) len) = forallb (fun j => f (S j)) (seq start len).
Proof.
  revert start. induction len as [|len IH]; intros start; [reflexivity|].
  cbn [seq forallb]. now rewrite IH.
Qed.

(** On a modulus [N >= 2] whose bit length fits the recursion limit,
    [run_fermat] raises nothing, and answers "prime" exactly when every
    witness it is given to draw passes. *)
Lemma fermat_loop_verdict (rnd : nat -> Z) (limit : nat) (N : Z) :
  2 <= N -> N - 1 < 2 ^ (Z.of_nat limit - 1) ->
  forall trials s,
    fst (fermat_loop rnd limit N trials s)
    = Ok (if forallb (fun j => passes_fermat N (witness_at rnd N (drawn s + j)))
                     (seq 0 (length trials))
          then "prime"%string else "composite"%string).
Proof.
  intros HN Hlim. induction trials as [|i rest IH]; intros s; [reflexivity|].
  cbn [fermat_loop length seq forallb]. unfold bind at 1.
  destruct (randint rnd 1 (N - 1) s) as [[a| |] s1] eqn:Ea.
  - pose proof (randint_range _ _ _ _ _ _ Ea) as (Hra & _).
    apply randint_witness in Ea. destruct Ea as [-> ->].
    rewrite Nat.add_0_r.
    unfold bind at 1. unfold call_mod_exp at 1.
    rewrite (mod_exp_value limit (witness_at rnd N (drawn s)) (N - 1) N)
      by lia.
    unfold passes_fermat at 1.
    destruct (_ =? 1); cbn [negb andb]; [|reflexivity].
    rewrite IH. cbn [drawn]. rewrite forallb_seq_shift.
    rewrite (forallb_pointwise
               (fun j => passes_fermat N (witness_at rnd N (drawn s + S j)))
               (fun j => passes_fermat N (witness_at rnd N (S (drawn s) + j))));
      [reflexivity|].
    intros j. now rewrite Nat.add_succ_r.
  - exfalso. unfold randint in Ea.
    destruct (Z.ltb_spec (N - 1) 1); [lia | discriminate].
  - now apply randint_no_outcome in Ea.
Qed.

(** X10.  [run_fermat] accepts every prime, whatever the witnesses drawn. *)
Lemma run_fermat_accepts_primes
  (rnd : nat -> Z) (limit : nat) (N k : Z) (s : state) :
  Z.prime N -> N - 1 < 2 ^ (Z.of_nat limit - 1) ->
  fst (run_fermat rnd limit N k s) = Ok "prime"%string.
Proof.
  intros Hp Hlim. pose proof (Z.prime_ge_2 _ Hp) as HN.
  unfold run_fermat. rewrite fermat_loop_verdict by assumption.
  replace (forallb _ _) with true; [reflexivity|].
  symmetry. apply forallb_forall. intros j _.
  unfold passes_fermat, witness_at. apply Z.eqb_eq.
  pose proof (Z.mod_pos_bound (rnd (drawn s + j)%nat) (N - 1 - 1 + 1)
                ltac:(lia)) as Hb.
  apply Z.fermat_nz; [exact Hp|].
  rewrite Z.mod_small by lia. lia.
Qed.

(** ** What the tests do with their trial count *)

(** C10.  With [k = 1] the trial loop ranges over [range(1, 1)], which is
    empty: [run_fermat] and [run_miller_rabin] draw no witness, call
    [mod_exp] not once, and answer "prime" for every [N], composite or not.
    In general [range(1, k)] has [k - 1] elements, and a run on [k] draws
    at most [k - 1] witnesses. *)
Theorem single_trial_count_runs_no_trial
  (rnd : nat -> Z) (limit gas : nat) (N : Z) (s : state) :
  run_fermat rnd limit N 1 s = (Ok "prime"%string, s)
  /\ run_miller_rabin rnd limit gas N 1 s = (Ok "prime"%string, s)
  /\ (forall k, length (py_range 1 k) = Z.to_nat (k - 1))
  /\ (forall k,
        (drawn (snd (run_fermat rnd limit N k s))
         <= drawn s + Z.to_nat (k - 1))%nat
        /\ (drawn (snd (run_miller_rabin rnd limit gas N k s))
            <= drawn s + Z.to_nat (k - 1))%nat).
Proof.
  split; [reflexivity|]. split; [reflexivity|].
  split; [intros k; apply py_range_length|].
  intros k. rewrite <- (py_range_length 1 k). split.
  - apply fermat_loop_draws.
  - apply miller_rabin_loop_draws.
Qed.

(** C6, as amended.  Neither test validates its input.  For every
    [k < 1] both answer "prime" for every [N] without drawing a witness.
    For [N < 2] and [k >= 2] both raise [ValueError], from the first
    witness draw on the empty range [1, N-1], before any call of
    [mod_exp], and give no verdict. *)
Theorem domain_violations
  (rnd : nat -> Z) (limit gas : nat) (N k : Z) (s : state) :
  (k < 1 ->
   run_fermat rnd limit N k s = (Ok "prime"%string, s)
   /\ run_miller_rabin rnd limit gas N k s = (Ok "prime"%string, s))
  /\ (N < 2 -> 2 <= k ->
      run_fermat rnd limit N k s = (Raise ValueError, s)
      /\ run_miller_rabin rnd limit gas N k s = (Raise ValueError, s)).
Proof.
  split.
  - intros Hk. unfold run_fermat, run_miller_rabin.
    rewrite py_range_empty by lia. split; reflexivity.
  - intros HN Hk. unfold run_fermat, run_miller_rabin. split.
    + apply fermat_loop_small_modulus; [lia | apply py_range_nonempty; lia].
    + apply miller_rabin_loop_small_modulus;
        [lia | apply py_range_nonempty; lia].
Qed.

Lemma domain_violations_witness :
  (run_fermat (fun _ => 0) 8 5 0 initial = (Ok "prime"%string, initial)
   /\ run_miller_rabin (fun _ => 0) 8 8 5 0 initial
      = (Ok "prime"%string, initial))
  /\ (run_fermat (fun _ => 0) 8 1 3 initial = (Raise ValueError, initial)
      /\ run_miller_rabin (fun _ => 0) 8 8 1 3 initial
         = (Raise ValueError, initial)).
Proof.
  split.
  - apply (domain_violations (fun _ => 0) 8 8 5 0 initial). lia.
  - apply (domain_violations (fun _ => 0) 8 8 1 3 initial); lia.
Defined.

(** C6, as stated, fails: on [k = 0], with [N = 0] and with [N = 5], both
    tests return the verdict "prime" and raise nothing. *)
Lemma verdict_on_invalid_input :
  run_fermat (fun _ => 0) 8 0 0 initial = (Ok "prime"%string, initial)
  /\ run_miller_rabin (fun _ => 0) 8 8 0 0 initial
     = (Ok "prime"%string, initial)
  /\ run_fermat (fun _ => 0) 8 5 0 initial = (Ok "prime"%string, initial)
  /\ run_miller_rabin (fun _ => 0) 8 8 5 0 initial
     = (Ok "prime"%string, initial).
Proof. repeat split. Qed.

(** C2, evaluated where the code departs from it.  On [N = 4] with [k = 1]
    [run_fermat] answers "prime" having drawn no witness, although the
    witness that the one trial would draw, 2, has [2^3 mod 4 = 0]; on
    [N = 9] with [k = 2] it draws the witness 1 alone and answers "prime",
    although the second witness, 2, has [2^8 mod 9 = 4]. *)
Theorem run_fermat_runs_one_trial_less :
  run_fermat (fun _ => 1) 8 4 1 initial = (Ok "prime"%string, initial)
  /\ fst (randint (fun _ => 1) 1 (4 - 1) initial) = Ok 2
  /\ mod_exp 8 2 (PyInt (4 - 1)) 4 = Ok 0
  /\ run_fermat (fun i => Z.of_nat i) 8 9 2 initial
     = (Ok "prime"%string, {| drawn := 1; calls := [(1, PyInt 8, 9)] |})
  /\ fst (randint (fun i => Z.of_nat i) 1 (9 - 1)
                  {| drawn := 1; calls := [(1, PyInt 8, 9)] |}) = Ok 2
  /\ mod_exp 8 2 (PyInt (9 - 1)) 9 = Ok 4.
Proof. repeat split. Qed.

(** C3, evaluated where the code departs from it.  On [N = 4] with [k = 1]
    [run_miller_rabin] answers "prime" having drawn no witness, although
    the witness of the one trial, 2, has [2^3 mod 4 = 0]; on [N = 9] with
    [k = 2] it draws the witness 1 alone. *)
Theorem run_miller_rabin_runs_one_trial_less :
  run_miller_rabin (fun _ => 1) 8 8 4 1 initial
  = (Ok "prime"%string, initial)
  /\ fst (randint (fun _ => 1) 1 (4 - 1) initial) = Ok 2
  /\ mod_exp 8 2 (PyInt (4 - 1)) 4 = Ok 0
  /\ (exists s, run_miller_rabin (fun i => Z.of_nat i) 8 8 9 2 initial
                = (Ok "prime"%string, s) /\ drawn s = 1%nat)
  /\ mod_exp 8 2 (PyInt (9 - 1)) 9 = Ok 4.
Proof.
  split; [reflexivity|]. split; [reflexivity|]. split; [reflexivity|].
  split; [|reflexivity].
  eexists. split; [vm_compute; reflexivity | reflexivity].
Qed.

(** C5, evaluated where the code departs from it.  The descent halves the
    exponent with the true division [/], whose result is a float.  On
    [N = 7] the second call of [mod_exp] receives the float 3.0; on
    [N = 2^61 - 1], where [(N - 1) / 2 = 2^60 - 1] is no binary64 value, it
    receives the float [2^60], which is not half of [N - 1]. *)
Theorem descent_passes_floats :
  calls (snd (run_miller_rabin (fun _ => 0) 8 8 7 2 initial))
  = [(1, PyInt 6, 7); (1, PyFloat (Float.of_Z 3), 7)]
  /\ (exists f,
        calls (snd (run_miller_rabin (fun _ => 1) 64 64 (2 ^ 61 - 1) 2
                                     initial))
        = [(2, PyInt (2 ^ 61 - 2), 2 ^ 61 - 1); (2, PyFloat f, 2 ^ 61 - 1)]
        /\ Float.to_Z f = Some (2 ^ 60)
        /\ (2 ^ 61 - 2) / 2 = 2 ^ 60 - 1).
Proof.
  split; [vm_compute; reflexivity|].
  eexists. split; [vm_compute; reflexivity|].
  split; vm_compute; reflexivity.
Qed.

(** ** [prime_test] *)


(** ** The probability estimators *)

Lemma forallb_py_range (P : Z -> bool) (lo hi : Z) :
  forallb P (py_range lo hi) = true ->
  forall k, lo <= k < hi -> P k = true.
Proof.
  intros H k Hk. rewrite forallb_forall in H. apply H.
  unfold py_range. apply in_map_iff. exists (Z.to_nat (k - lo)).
  split; [lia|]. apply in_seq. lia.
Qed.

Lemma exact_in_unit_spec (o : outcome spec_float) (q : Q) :
  exact_in_unit o q = true ->
  exists f v, o = Ok f /\ Float.to_Q f = Some v
              /\ (v == q)%Q /\ (0 <= v)%Q /\ (v < 1)%Q.
Proof.
  unfold exact_in_unit. destruct o as [f| |]; try discriminate.
  destruct (Float.to_Q f) as [v|] eqn:Ev; [|discriminate].
  intros H. apply andb_prop in H. destruct H as [H H1].
  apply andb_prop in H. destruct H as [Heq H0].
  exists f, v. split; [reflexivity|]. split; [exact Ev|].
  split; [now apply Qeq_bool_iff|]. split; [now apply Qle_bool_iff|].
  apply Qnot_le_lt. intros Hle. apply Qle_bool_iff in Hle.
  rewrite Hle in H1. discriminate.
Qed.

Lemma returns_one_spec (o : outcome spec_float) :
  returns_one o = true -> o = Ok Float.one.
Proof.
  unfold returns_one. destruct o as [f| |]; try discriminate.
  destruct f as [| | |[] m e]; try discriminate.
  intros H. apply andb_prop in H. destruct H as [Hm He].
  apply Pos.eqb_eq in Hm. apply Z.eqb_eq in He. subst m e. reflexivity.
Qed.

(** The quotient [1 / 2^k] underflows to 0.0 from [k = 1076] on. *)
Lemma pow2_digits (k : Z) :
  0 <= k -> exists p, 2 ^ k = Zpos p /\ Zpos (digits2_pos p) = k + 1.
Proof.
  intros Hk. pattern k. apply natlike_ind; [| |exact Hk].
  - exists 1%positive. split; reflexivity.
  - intros n Hn (p & Hp & Hd). exists (xO p). split.
    + rewrite Z.pow_succ_r, Hp by lia. reflexivity.
    + cbn [digits2_pos]. rewrite Pos2Z.inj_succ, Hd. lia.
Qed.

Lemma int_truediv_underflow (k : Z) :
  1076 <= k -> int_truediv 1 (2 ^ k) = Ok (S754_zero false).
Proof.
  intros Hk.
  destruct (pow2_digits k ltac:(lia)) as (p & Hp & Hd).
  assert (Hlt : 2 ^ 1075 < 2 ^ k) by (apply Z.pow_lt_mono_r; lia).
  unfold int_truediv. rewrite Hp. cbn [Z.eqb Float.exact_of_Z].
  unfold Float.div, SFdiv.
  assert (Hcore : SFdiv_core_binary Float.prec Float.emax 1 0 (Zpos p) 0
                  = (0, -1074, loc_Inexact Lt)).
  { unfold SFdiv_core_binary.
    cbn [Zdigits2]. rewrite Hd.
    replace (Z.min (fexp Float.prec Float.emax
                      (Z.pos (digits2_pos 1) + 0 - (k + 1 + 0))) (0 - 0))
      with (-1074).
    2:{ unfold fexp, emin, Float.prec, Float.emax. cbn [digits2_pos]. lia. }
    change (0 - 0 - -1074) with 1074.
    change (Z.shiftl 1 1074) with (2 ^ 1074).
    assert (Hsmall : 0 <= 2 ^ 1074 < Zpos p).
    { rewrite <- Hp. split; [apply Z.pow_nonneg; lia|].
      apply Z.pow_lt_mono_r; lia. }
    pose proof (Z.div_small _ _ Hsmall) as Hq.
    pose proof (Z.mod_small _ _ Hsmall) as Hr.
    unfold Z.div, Z.modulo in Hq, Hr.
    destruct (Z.div_eucl (2 ^ 1074) (Zpos p)) as [q r].
    subst q r.
    f_equal.
    unfold new_location.
    assert (Hev : Z.even (Zpos p) = true).
    { rewrite <- Hp. replace k with (Z.succ (k - 1)) by lia.
      rewrite Z.pow_succ_r by lia. apply Z.even_mul. }
    rewrite Hev. unfold new_location_even.
    change (2 ^ 1074 =? 0) with false. cbv iota.
    f_equal. apply Z.compare_lt_iff. rewrite <- Hp.
    change (2 * 2 ^ 1074) with (2 ^ 1075). exact Hlt. }
  rewrite Hcore. vm_compute. reflexivity.
Qed.

Lemma fprobability_saturates (k : Z) :
  54 <= k -> fprobability k = Ok Float.one.
Proof.
  intros Hk. destruct (Z.lt_ge_cases k 1076) as [Hlt|Hge].
  - apply returns_one_spec.
    apply (forallb_py_range (fun k => returns_one (fprobability k)) 54 1076);
      [vm_compute; reflexivity | lia].
  - unfold fprobability, py_pow2.
    destruct (Z.leb_spec 0 k) as [_|]; [|lia].
    cbn [bind_outcome py_one_over]. now rewrite int_truediv_underflow.
Qed.

Lemma mprobability_saturates (k : Z) :
  27 <= k -> mprobability k = Ok Float.one.
Proof.
  intros Hk. destruct (Z.lt_ge_cases k 538) as [Hlt|Hge].
  - apply returns_one_spec.
    apply (forallb_py_range (fun k => returns_one (mprobability k)) 27 538);
      [vm_compute; reflexivity | lia].
  - unfold mprobability, py_pow4.
    destruct (Z.leb_spec 0 k) as [_|]; [|lia].
    cbn [bind_outcome py_one_over].
    replace (4 ^ k) with (2 ^ (2 * k)).
    + rewrite int_truediv_underflow by lia. reflexivity.
    + rewrite Z.pow_mul_r by lia. reflexivity.
Qed.

(** C7, as amended.  [fprobability k] is exactly [1 - 2^(-k)], a value of
    [0, 1), for [1 <= k <= 53], and [mprobability k] is exactly
    [1 - 4^(-k)], a value of [0, 1), for [1 <= k <= 26]; for every larger
    [k] each returns the float 1.0. *)
Theorem estimators_exact_while_representable (k : Z) :
  (1 <= k <= 53 ->
   exists f v, fprobability k = Ok f /\ Float.to_Q f = Some v
               /\ (v == fermat_bound k)%Q /\ (0 <= v)%Q /\ (v < 1)%Q)
  /\ (1 <= k <= 26 ->
      exists f v, mprobability k = Ok f /\ Float.to_Q f = Some v
                  /\ (v == miller_rabin_bound k)%Q
                  /\ (0 <= v)%Q /\ (v < 1)%Q)
  /\ (54 <= k -> fprobability k = Ok Float.one)
  /\ (27 <= k -> mprobability k = Ok Float.one).
Proof.
  split; [|split; [|split]].
  - intros Hk. apply exact_in_unit_spec.
    apply (forallb_py_range
             (fun k => exact_in_unit (fprobability k) (fermat_bound k)) 1 54);
      [vm_compute; reflexivity | lia].
  - intros Hk. apply exact_in_unit_spec.
    apply (forallb_py_range
             (fun k => exact_in_unit (mprobability k) (miller_rabin_bound k))
             1 27);
      [vm_compute; reflexivity | lia].
  - apply fprobability_saturates.
  - apply mprobability_saturates.
Qed.

Lemma estimators_exact_while_representable_witness :
  (exists f v, fprobability 3 = Ok f /\ Float.to_Q f = Some v
               /\ (v == fermat_bound 3)%Q /\ (0 <= v)%Q /\ (v < 1)%Q)
  /\ (exists f v, mprobability 3 = Ok f /\ Float.to_Q f = Some v
                  /\ (v == miller_rabin_bound 3)%Q
                  /\ (0 <= v)%Q /\ (v < 1)%Q)
  /\ fprobability 60 = Ok Float.one
  /\ mprobability 60 = Ok Float.one.
Proof.
  split; [|split; [|split]].
  - apply (estimators_exact_while_representable 3). lia.
  - apply (estimators_exact_while_representable 3). lia.
  - apply (estimators_exact_while_representable 60). lia.
  - apply (estimators_exact_while_representable 60). lia.
Defined.

(** C7, as stated, fails at [k = 54] for [fprobability] and at [k = 27]
    for [mprobability]: the result is the float 1.0, which is not the
    bound and does not lie below 1. *)
Lemma estimators_round_to_one :
  exists v, Float.to_Q Float.one = Some v
            /\ fprobability 54 = Ok Float.one
            /\ mprobability 27 = Ok Float.one
            /\ ~ (v == fermat_bound 54)%Q
            /\ ~ (v == miller_rabin_bound 27)%Q
            /\ ~ (v < 1)%Q.
Proof.
  eexists. split; [reflexivity|].
  split; [vm_compute; reflexivity|]. split; [vm_compute; reflexivity|].
  split; [|split].
  - intros H. apply Qeq_bool_iff in H. vm_compute in H. discriminate.
  - intros H. apply Qeq_bool_iff in H. vm_compute in H. discriminate.
  - intros H. apply Qlt_not_le in H. apply H. apply Qle_bool_iff.
    vm_compute. reflexivity.
Qed.

(** C8, as amended.  For every [k >= 1] the estimators are non-decreasing
    in [k], at most 1, and [mprobability k >= fprobability k]; the increase
    is strict and the value strictly below 1 for [k <= 53] in the case of
    [fprobability] and for [k <= 26] in the case of [mprobability]. *)
Theorem estimators_monotone (k : Z) :
  1 <= k ->
  outcome_leb (fprobability k) (fprobability (k + 1)) = true
  /\ outcome_leb (mprobability k) (mprobability (k + 1)) = true
  /\ outcome_leb (fprobability k) (mprobability k) = true
  /\ outcome_leb (fprobability k) (Ok Float.one) = true
  /\ outcome_leb (mprobability k) (Ok Float.one) = true
  /\ (k <= 53 ->
      outcome_ltb (fprobability k) (fprobability (k + 1)) = true
      /\ outcome_ltb (fprobability k) (Ok Float.one) = true)
  /\ (k <= 26 ->
      outcome_ltb (mprobability k) (mprobability (k + 1)) = true
      /\ outcome_ltb (mprobability k) (Ok Float.one) = true).
Proof.
  intros Hk.
  assert (Hweak :
            outcome_leb (fprobability k) (fprobability (k + 1))
            && outcome_leb (mprobability k) (mprobability (k + 1))
            && outcome_leb (fprobability k) (mprobability k)
            && outcome_leb (fprobability k) (Ok Float.one)
            && outcome_leb (mprobability k) (Ok Float.one) = true).
  { destruct (Z.le_gt_cases k 53) as [Hle|Hgt].
    - apply (forallb_py_range
               (fun k =>
                  outcome_leb (fprobability k) (fprobability (k + 1))
                  && outcome_leb (mprobability k) (mprobability (k + 1))
                  && outcome_leb (fprobability k) (mprobability k)
                  && outcome_leb (fprobability k) (Ok Float.one)
                  && outcome_leb (mprobability k) (Ok Float.one)) 1 54);
        [vm_compute; reflexivity | lia].
    - rewrite !fprobability_saturates, !mprobability_saturates by lia.
      reflexivity. }
  repeat (apply andb_prop in Hweak; destruct Hweak as [Hweak ?]).
  repeat (split; [assumption|]).
  split.
  - intros Hle.
    apply andb_prop.
    apply (forallb_py_range
             (fun k =>
                outcome_ltb (fprobability k) (fprobability (k + 1))
                && outcome_ltb (fprobability k) (Ok Float.one)) 1 54);
      [vm_compute; reflexivity | lia].
  - intros Hle.
    apply andb_prop.
    apply (forallb_py_range
             (fun k =>
                outcome_ltb (mprobability k) (mprobability (k + 1))
                && outcome_ltb (mprobability k) (Ok Float.one)) 1 27);
      [vm_compute; reflexivity | lia].
Qed.

Lemma estimators_monotone_witness :
  outcome_ltb (fprobability 10) (fprobability (10 + 1)) = true
  /\ outcome_ltb (fprobability 10) (Ok Float.one) = true.
Proof.
  apply (estimators_monotone 10); lia.
Defined.

(** C8, as stated, fails at [k = 54] for [fprobability] and at [k = 27]
    for [mprobability]: the value no longer increases and is not below 1. *)
Lemma estimators_stop_increasing :
  outcome_ltb (fprobability 54) (fprobability (54 + 1)) = false
  /\ outcome_ltb (fprobability 54) (Ok Float.one) = false
  /\ outcome_ltb (mprobability 27) (mprobability (27 + 1)) = false
  /\ outcome_ltb (mprobability 27) (Ok Float.one) = false.
Proof. repeat split; vm_compute; reflexivity. Qed.

(** ** Primality of a modulus, by Pocklington's criterion *)

Lemma pow_mod_one_pow (n a m c : Z) :
  1 < n -> 0 <= m -> 0 <= c -> a ^ m mod n = 1 -> a ^ (m * c) mod n = 1.
Proof.
  intros Hn Hm Hc H.
  rewrite Z.pow_mul_r by lia.
  rewrite <- Z.mod_pow_l, H, Z.pow_1_l by lia.
  apply Z.mod_1_l. lia.
Qed.

(** Exponents at which [a] is 1 modulo [n] are closed under [gcd]. *)
Lemma pow_mod_one_gcd (n a : Z) :
  1 < n ->
  forall (fuel : nat) (m k : Z),
    (Z.to_nat (m + k) <= fuel)%nat -> 0 <= m -> 0 <= k ->
    a ^ m mod n = 1 -> a ^ k mod n = 1 -> a ^ Z.gcd m k mod n = 1.
Proof.
  intros Hn. induction fuel as [|fuel IH]; intros m k Hf Hm Hk Em Ek.
  - assert (m = 0) by lia. assert (k = 0) by lia. subst. exact Em.
  - destruct (Z.eq_dec m 0) as [->|Hm0].
    { rewrite Z.gcd_0_l, Z.abs_eq by lia. exact Ek. }
    destruct (Z.eq_dec k 0) as [->|Hk0].
    { rewrite Z.gcd_0_r, Z.abs_eq by lia. exact Em. }
    destruct (Z.le_gt_cases m k) as [Hle|Hgt].
    + rewrite <- (Z.gcd_sub_diag_r m k).
      apply IH; try lia.
      pose proof Ek as E.
      replace (a ^ k) with (a ^ (k - m) * a ^ m) in E
        by (rewrite <- Z.pow_add_r by lia; f_equal; lia).
      rewrite <- Z.mul_mod_idemp_r, Em, Z.mul_1_r in E by lia. exact E.
    + rewrite Z.gcd_comm, <- (Z.gcd_sub_diag_r k m), Z.gcd_comm.
      apply IH; try lia.
      pose proof Em as E.
      replace (a ^ m) with (a ^ (m - k) * a ^ k) in E
        by (rewrite <- Z.pow_add_r by lia; f_equal; lia).
      rewrite <- Z.mul_mod_idemp_r, Ek, Z.mul_1_r in E by lia. exact E.
Qed.

Lemma prime_divisor_exists (fuel : nat) :
  forall n, 1 < n -> (Z.to_nat n <= fuel)%nat ->
            exists p, Z.prime p /\ (p | n).
Proof.
  induction fuel as [|fuel IH]; intros n Hn Hf; [lia|].
  destruct (prime_dec n) as [Hp|Hnp].
  - exists n. split; [now apply prime_alt | apply Z.divide_refl].
  - destruct (not_prime_divide n Hn Hnp) as (d & Hd & Hdn).
    destruct (IH d ltac:(lia) ltac:(lia)) as (p & Hp & Hpd).
    exists p. split; [exact Hp|]. now apply Z.divide_trans with d.
Qed.

(** Pocklington's criterion with one prime [q]: when [q^e] divides
    [N - 1] and exceeds the square root of [N], a base [a] with
    [a^(N-1) = 1] and [gcd (a^((N-1)/q) - 1, N) = 1] modulo [N] proves
    [N] prime. *)
Lemma pocklington (N q e R a : Z) :
  Z.prime q -> 0 < e -> 0 < R ->
  N - 1 = q ^ e * R ->
  N < (q ^ e + 1) * (q ^ e + 1) ->
  a ^ (N - 1) mod N = 1 ->
  Z.gcd (a ^ ((N - 1) / q) mod N - 1) N = 1 ->
  Z.prime N.
Proof.
  intros Hq He HR HN Hsq Ha Hg.
  assert (Hq2 : 2 <= q) by now apply Z.prime_ge_2.
  assert (HF : 0 < q ^ e) by (apply Z.pow_pos_nonneg; lia).
  assert (HN1 : 1 < N) by nia.
  assert (Hbig : forall p, Z.prime p -> (p | N) -> q ^ e < p).
  { intros p Hp HpN.
    assert (Hp2 : 2 <= p) by now apply Z.prime_ge_2.
    assert (Hap : a ^ (N - 1) mod p = 1).
    { rewrite <- (Z.mod_mod_divide _ N p HpN), Ha. apply Z.mod_1_l. lia. }
    assert (Hanz : a mod p <> 0).
    { intros E. rewrite <- Z.mod_pow_l, E, Z.pow_0_l, Z.mod_0_l in Hap; lia. }
    pose proof (Z.fermat_nz p a Hp Hanz) as Hflt.
    pose proof (pow_mod_one_gcd p a ltac:(lia) _ (N - 1) (p - 1)
                  (Nat.le_refl _) ltac:(lia) ltac:(lia) Hap Hflt) as Hgcd.
    set (g := Z.gcd (N - 1) (p - 1)) in *.
    assert (Hgpos : 0 < g).
    { pose proof (Z.gcd_nonneg (N - 1) (p - 1)).
      destruct (Z.eq_dec g 0) as [E|]; [|unfold g in *; lia].
      apply Z.gcd_eq_0_l in E. lia. }
    destruct (Z.gcd_divide_l (N - 1) (p - 1)) as [c Hc]. fold g in Hc.
    assert (Hcpos : 0 < c) by nia.
    destruct (Z.BoolSpec_divide q c) as [Hqc|Hqc].
    - exfalso. destruct Hqc as [c' Hc'].
      assert (Hc'pos : 0 < c') by nia.
      assert (Hdiv : (N - 1) / q = g * c').
      { rewrite Hc, Hc'.
        replace (c' * q * g) with (g * c' * q) by ring.
        apply Z.div_mul. lia. }
      assert (Hone : a ^ ((N - 1) / q) mod p = 1).
      { rewrite Hdiv. apply pow_mod_one_pow; lia. }
      assert (Hd1 : (p | a ^ ((N - 1) / q) mod N - 1)).
      { apply Z.mod_divide; [lia|].
        rewrite Zminus_mod, (Z.mod_mod_divide _ N p HpN), Hone.
        rewrite Z.mod_1_l by lia. reflexivity. }
      pose proof (Z.gcd_greatest _ _ _ Hd1 HpN) as Hd.
      rewrite Hg in Hd. apply Z.divide_1_r_nonneg in Hd; lia.
    - assert (Hcop : Z.coprime (q ^ e) c).
      { apply Z.coprime_pow_l; [lia|]. now apply Z.coprime_prime_l. }
      assert (Hdg : (q ^ e | g)).
      { apply Z.gauss with c; [|exact Hcop].
        exists R. rewrite <- Hc, HN. ring. }
      assert (Hdp : (q ^ e | p - 1)).
      { apply Z.divide_trans with g; [exact Hdg|].
        apply Z.gcd_divide_r. }
      apply Z.divide_pos_le in Hdp; lia. }
  apply prime_alt. destruct (prime_dec N) as [HP|HnP]; [exact HP|exfalso].
  destruct (not_prime_divide N HN1 HnP) as (d & Hd & [d' Hd']).
  assert (Hd'1 : 1 < d') by nia.
  destruct (prime_divisor_exists _ d ltac:(lia) (Nat.le_refl _))
    as (p & Hp & Hpd).
  destruct (prime_divisor_exists _ d' Hd'1 (Nat.le_refl _))
    as (p' & Hp' & Hpd').
  assert (Hp_lt : q ^ e < p).
  { apply Hbig; [exact Hp|]. apply Z.divide_trans with d; [exact Hpd|].
    exists d'. exact Hd'. }
  assert (Hp'_lt : q ^ e < p').
  { apply Hbig; [exact Hp'|]. apply Z.divide_trans with d'; [exact Hpd'|].
    exists d. lia. }
  apply Z.divide_pos_le in Hpd; [|lia].
  apply Z.divide_pos_le in Hpd'; [|lia].
  nia.
Qed.

Lemma pow_mod_by_mod_exp (limit : nat) (x y N r : Z) :
  0 < y < 2 ^ Z.of_nat limit -> N <> 0 ->
  mod_exp (S limit) x (PyInt y) N = Ok r -> x ^ y mod N = r.
Proof.
  intros Hy HN H.
  destruct (mod_exp_int_spec limit x y N ltac:(lia) HN) as (r' & Hr' & _ & Hp).
  rewrite H in Hr'. injection Hr' as ->. symmetry. apply Hp. lia.
Qed.

Lemma big_prime_is_prime : Z.prime big_prime.
Proof.
  apply (pocklington big_prime 3 54 2 3).
  - exact Z.prime_3.
  - reflexivity.
  - reflexivity.
  - vm_compute. reflexivity.
  - vm_compute. reflexivity.
  - apply (pow_mod_by_mod_exp 100).
    + split; vm_compute; reflexivity.
    + discriminate.
    + vm_compute. reflexivity.
  - pose (r := match mod_exp 101 3 (PyInt ((big_prime - 1) / 3)) big_prime with
               | Ok r => r
               | _ => 0
               end).
    assert (E : 3 ^ ((big_prime - 1) / 3) mod big_prime = r).
    { apply (pow_mod_by_mod_exp 100).
      - split; vm_compute; reflexivity.
      - discriminate.
      - vm_compute. reflexivity. }
    rewrite E. vm_compute. reflexivity.
Qed.

(** C4, evaluated where the code departs from it.  [2 * 3^54 + 1] is prime,
    and on it, with the witness 2, [run_fermat] answers "prime" while
    [run_miller_rabin] answers "composite": half of [N - 1] is [3^54],
    which is no binary64 value, so the descent raises the witness to a
    rounded exponent. *)
Theorem miller_rabin_rejects_a_prime :
  Z.prime big_prime
  /\ witness_at (fun _ => 1) big_prime 0 = 2
  /\ fst (run_fermat (fun _ => 1) 128 big_prime 2 initial)
     = Ok "prime"%string
  /\ fst (run_miller_rabin (fun _ => 1) 128 128 big_prime 2 initial)
     = Ok "composite"%string
  /\ (exists f e,
        nth_error (calls (snd (run_miller_rabin (fun _ => 1) 128 128
                                                big_prime 2 initial))) 1
        = Some (2, PyFloat f, big_prime)
        /\ Float.to_Z f = Some e
        /\ e <> (big_prime - 1) / 2).
Proof.
  split; [exact big_prime_is_prime|].
  split; [vm_compute; reflexivity|].
  split; [vm_compute; reflexivity|].
  split; [vm_compute; reflexivity|].
  eexists. eexists.
  split; [vm_compute; reflexivity|].
  split; [vm_compute; reflexivity|].
  vm_compute. discriminate.
Qed.

(** * Further properties of the code *)

(** ** [mod_exp] outside its contract *)

(** X1.  A negative integer exponent never reaches the base case: [y // 2]
    stays negative, and the recursion ends in [RecursionError] whatever
    the limit. *)
Theorem mod_exp_negative_exponent (limit : nat) :
  forall x y N, y < 0 -> mod_exp limit x (PyInt y) N = Raise RecursionError.
Proof.
  induction limit as [|l IH]; intros x y N Hy; [reflexivity|].
  rewrite mod_exp_unfold. cbn [py_is_zero py_floordiv2].
  destruct (Z.eqb_spec y 0) as [|_]; [lia|].
  rewrite IH; [reflexivity|]. apply Z.div_lt_upper_bound; lia.
Qed.

Lemma mod_exp_negative_exponent_witness :
  mod_exp 1000 2 (PyInt (-1)) 7 = Raise RecursionError.
Proof. apply (mod_exp_negative_exponent 1000 2 (-1) 7). lia. Defined.

(** X2.  The recursion is as deep as the exponent is long: an exponent of
    [limit] bits or more exhausts a limit of [limit] nested calls. *)
Theorem mod_exp_depth (limit : nat) :
  forall x y N,
    2 ^ (Z.of_nat limit - 1) <= y ->
    mod_exp limit x (PyInt y) N = Raise RecursionError.
Proof.
  induction limit as [|l IH]; intros x y N Hy; [reflexivity|].
  replace (Z.of_nat (S l) - 1) with (Z.of_nat l) in Hy by lia.
  assert (Hpos : 0 < 2 ^ Z.of_nat l) by (apply Z.pow_pos_nonneg; lia).
  rewrite mod_exp_unfold. cbn [py_is_zero py_floordiv2].
  destruct (Z.eqb_spec y 0) as [|_]; [lia|].
  rewrite IH; [reflexivity|].
  destruct l as [|l'].
  - cbn. apply Z.div_pos; lia.
  - replace (Z.of_nat (S l') - 1) with (Z.of_nat l') by lia.
    rewrite Nat2Z.inj_succ, Z.pow_succ_r in Hy by lia.
    apply Z.div_le_lower_bound; lia.
Qed.

Lemma mod_exp_depth_witness :
  mod_exp 3 2 (PyInt 4) 7 = Raise RecursionError.
Proof. apply (mod_exp_depth 3 2 4 7). vm_compute. discriminate. Defined.

(** X3.  On the modulus 0 every positive exponent ends in
    [ZeroDivisionError]. *)
Theorem mod_exp_zero_modulus (limit : nat) :
  forall x y,
    0 < y < 2 ^ (Z.of_nat limit - 1) ->
    mod_exp limit x (PyInt y) 0 = Raise ZeroDivisionError.
Proof.
  induction limit as [|l IH]; intros x y Hy.
  - cbn in Hy. lia.
  - replace (Z.of_nat (S l) - 1) with (Z.of_nat l) in Hy by lia.
    rewrite mod_exp_unfold. cbn [py_is_zero py_floordiv2 py_mod2].
    destruct (Z.eqb_spec y 0) as [|_]; [lia|].
    destruct (Z.eq_dec (y / 2) 0) as [E|E].
    + rewrite E. destruct l as [|l']; [cbn in Hy; lia|].
      rewrite mod_exp_unfold. cbn [py_is_zero Z.eqb].
      destruct (y mod 2 =? 0); reflexivity.
    + rewrite IH; [reflexivity|].
      destruct l as [|l']; [cbn in Hy; lia|].
      replace (Z.of_nat (S l') - 1) with (Z.of_nat l') by lia.
      rewrite Nat2Z.inj_succ, Z.pow_succ_r in Hy by lia.
      split.
      * assert (0 <= y / 2) by (apply Z.div_pos; lia). lia.
      * apply Z.div_lt_upper_bound; lia.
Qed.

Lemma mod_exp_zero_modulus_witness :
  mod_exp 10 3 (PyInt 5) 0 = Raise ZeroDivisionError.
Proof.
  apply (mod_exp_zero_modulus 10 3 5). vm_compute. intuition discriminate.
Defined.

(** X4.  On a negative modulus the result is the reduced power with the sign
    of the modulus: it lies in [(N, 0]]. *)
Theorem mod_exp_negative_modulus (limit : nat) (x y N : Z) :
  N < 0 -> 1 <= y < 2 ^ (Z.of_nat limit - 1) ->
  mod_exp limit x (PyInt y) N = Ok (x ^ y mod N) /\ N < x ^ y mod N <= 0.
Proof.
  intros HN Hy. destruct limit as [|l]; [cbn in Hy; lia|].
  replace (Z.of_nat (S l) - 1) with (Z.of_nat l) in Hy by lia.
  destruct (mod_exp_int_spec l x y N ltac:(lia) ltac:(lia))
    as (r & Hr & _ & Hpos).
  rewrite Hr, Hpos by lia. split; [reflexivity|].
  apply Z.mod_neg_bound. exact HN.
Qed.

Lemma mod_exp_negative_modulus_witness :
  mod_exp 10 3 (PyInt 5) (-7) = Ok (3 ^ 5 mod -7) /\ -7 < 3 ^ 5 mod -7 <= 0.
Proof.
  apply (mod_exp_negative_modulus 10 3 5 (-7)); [lia|].
  vm_compute. intuition discriminate.
Defined.

(** ** Algebra of [mod_exp] *)

(** X5.  The base may be reduced modulo [N] beforehand. *)
Theorem mod_exp_base_mod (limit : nat) (x y N : Z) :
  0 <= y < 2 ^ (Z.of_nat limit - 1) -> N <> 0 ->
  mod_exp limit (x mod N) (PyInt y) N = mod_exp limit x (PyInt y) N.
Proof.
  intros Hy HN. destruct limit as [|l]; [reflexivity|].
  replace (Z.of_nat (S l) - 1) with (Z.of_nat l) in Hy by lia.
  destruct (mod_exp_int_spec l x y N Hy HN) as (r & Hr & H0 & Hpos).
  destruct (mod_exp_int_spec l (x mod N) y N Hy HN) as (r' & Hr' & H0' & Hpos').
  rewrite Hr, Hr'. f_equal.
  destruct (Z.eq_dec y 0) as [E|E].
  - now rewrite (H0 E), (H0' E).
  - rewrite Hpos, Hpos' by lia. apply Z.mod_pow_l.
Qed.

Lemma mod_exp_base_mod_witness :
  mod_exp 10 (23 mod 7) (PyInt 5) 7 = mod_exp 10 23 (PyInt 5) 7.
Proof.
  apply (mod_exp_base_mod 10 23 5 7); [|lia].
  vm_compute. intuition discriminate.
Defined.

(** X6.  Exponents add as results multiply: on a modulus [N >= 2],
    [mod_exp x (y1 + y2) N] is the product of [mod_exp x y1 N] and
    [mod_exp x y2 N], reduced modulo [N]. *)
Theorem mod_exp_add (limit : nat) (x y1 y2 N : Z) :
  2 <= N -> 0 <= y1 -> 0 <= y2 -> y1 + y2 < 2 ^ (Z.of_nat limit - 1) ->
  exists r1 r2,
    mod_exp limit x (PyInt y1) N = Ok r1
    /\ mod_exp limit x (PyInt y2) N = Ok r2
    /\ mod_exp limit x (PyInt (y1 + y2)) N = Ok ((r1 * r2) mod N).
Proof.
  intros HN H1 H2 Hs.
  rewrite !mod_exp_value by lia.
  eexists. eexists. split; [reflexivity|]. split; [reflexivity|].
  f_equal. rewrite Z.pow_add_r by lia. apply Zmult_mod.
Qed.

Lemma mod_exp_add_witness :
  exists r1 r2,
    mod_exp 10 3 (PyInt 4) 7 = Ok r1
    /\ mod_exp 10 3 (PyInt 5) 7 = Ok r2
    /\ mod_exp 10 3 (PyInt (4 + 5)) 7 = Ok ((r1 * r2) mod 7).
Proof.
  apply (mod_exp_add 10 3 4 5 7); lia.
Defined.

(** ** The verdict and the trace of [run_fermat] *)

(** X9.  On a modulus [N >= 2] whose bit length fits the recursion limit,
    [run_fermat N k] raises nothing and answers "prime" exactly when each
    of the [k - 1] witnesses it is given to draw passes Fermat's test. *)
Theorem run_fermat_verdict
  (rnd : nat -> Z) (limit : nat) (N k : Z) (s : state) :
  2 <= N -> N - 1 < 2 ^ (Z.of_nat limit - 1) ->
  fst (run_fermat rnd limit N k s)
  = Ok (if forallb (fun j => passes_fermat N (witness_at rnd N (drawn s + j)))
                   (seq 0 (Z.to_nat (k - 1)))
        then "prime"%string else "composite"%string).
Proof.
  intros HN Hlim. unfold run_fermat.
  rewrite fermat_loop_verdict by assumption.
  now rewrite py_range_length.
Qed.

Lemma run_fermat_verdict_witness :
  fst (run_fermat (fun i => Z.of_nat i) 8 9 3 initial)
  = Ok (if forallb (fun j => passes_fermat 9
                               (witness_at (fun i => Z.of_nat i) 9
                                           (drawn initial + j)))
                   (seq 0 (Z.to_nat (3 - 1)))
        then "prime"%string else "composite"%string).
Proof.
  apply (run_fermat_verdict (fun i => Z.of_nat i) 8 9 3 initial); [lia|].
  vm_compute. reflexivity.
Defined.

Lemma run_fermat_accepts_primes_witness :
  fst (run_fermat (fun i => Z.of_nat i) 8 3 5 initial) = Ok "prime"%string.
Proof.
  apply (run_fermat_accepts_primes (fun i => Z.of_nat i) 8 3 5 initial).
  - exact Z.prime_3.
  - vm_compute. reflexivity.
Defined.

(** X11.  [run_fermat] stops at the first witness that fails: when the first
    witness fails, it answers "composite" after that one draw and that one
    call of [mod_exp]. *)
Theorem run_fermat_short_circuit
  (rnd : nat -> Z) (limit : nat) (N k : Z) (s : state) :
  2 <= N -> N - 1 < 2 ^ (Z.of_nat limit - 1) -> 2 <= k ->
  passes_fermat N (witness_at rnd N (drawn s)) = false ->
  run_fermat rnd limit N k s
  = (Ok "composite"%string,
     {| drawn := S (drawn s);
        calls := calls s ++ [(witness_at rnd N (drawn s), PyInt (N - 1), N)] |}).
Proof.
  intros HN Hlim Hk Hfail. unfold run_fermat, py_range.
  destruct (Z.to_nat (k - 1)) as [|n] eqn:En; [lia|].
  cbn [seq map fermat_loop]. unfold bind at 1, randint.
  destruct (Z.ltb_spec (N - 1) 1) as [|_]; [lia|].
  fold (witness_at rnd N (drawn s)).
  unfold bind at 1, call_mod_exp at 1. cbn [drawn calls].
  rewrite (mod_exp_value limit (witness_at rnd N (drawn s)) (N - 1) N) by lia.
  unfold passes_fermat in Hfail. rewrite Hfail. reflexivity.
Qed.

Lemma run_fermat_short_circuit_witness :
  run_fermat (fun _ => 1) 8 9 5 initial
  = (Ok "composite"%string,
     {| drawn := S (drawn initial);
        calls := calls initial
                 ++ [(witness_at (fun _ => 1) 9 (drawn initial),
                      PyInt (9 - 1), 9)] |}).
Proof.
  apply (run_fermat_short_circuit (fun _ => 1) 8 9 5 initial);
    [lia | vm_compute; reflexivity | lia | vm_compute; reflexivity].
Defined.

(** Whatever the input and the outcome, [run_fermat] makes one call of
    [mod_exp] per witness drawn, in the order of the draws, each on the
    witness, the exponent [N - 1] and the modulus [N]. *)
Lemma fermat_loop_calls (rnd : nat -> Z) (limit : nat) (N : Z) :
  forall trials s,
    let s' := snd (fermat_loop rnd limit N trials s) in
    (drawn s <= drawn s')%nat
    /\ calls s'
       = calls s ++ map (fun i => (witness_at rnd N i, PyInt (N - 1), N))
                        (seq (drawn s) (drawn s' - drawn s)).
Proof.
  induction trials as [|i rest IH]; intros s; cbn zeta.
  - cbn. rewrite Nat.sub_diag. cbn. now rewrite app_nil_r.
  - destruct (fermat_loop rnd limit N (i :: rest) s) as [o s'] eqn:H.
    cbn [snd]. cbn [fermat_loop] in H. unfold bind at 1 in H.
    destruct (randint rnd 1 (N - 1) s) as [[a| |] s1] eqn:Ea.
    + apply randint_witness in Ea. destruct Ea as [-> ->].
      unfold bind at 1, call_mod_exp at 1 in H. cbn [drawn calls] in H.
      set (c := (witness_at rnd N (drawn s), PyInt (N - 1), N)) in *.
      set (s2 := {| drawn := S (drawn s); calls := calls s ++ [c] |}) in *.
      assert (Hstop : (drawn s <= drawn s2)%nat
                      /\ calls s2
                         = calls s
                           ++ map (fun i => (witness_at rnd N i,
                                             PyInt (N - 1), N))
                                  (seq (drawn s) (drawn s2 - drawn s))).
      { cbn [drawn calls s2]. split; [lia|].
        replace (S (drawn s) - drawn s)%nat with 1%nat by lia. reflexivity. }
      destruct (mod_exp limit (witness_at rnd N (drawn s)) (PyInt (N - 1)) N)
        as [r| |]; try (injection H as _ <-; exact Hstop).
      destruct (negb (r =? 1)); [injection H as _ <-; exact Hstop|].
      specialize (IH s2). cbn zeta in IH. rewrite H in IH. cbn [snd] in IH.
      destruct IH as [Hd Hc]. cbn [drawn s2] in Hd, Hc.
      split; [lia|]. rewrite Hc. cbn [calls s2].
      rewrite <- app_assoc. f_equal.
      replace (drawn s' - drawn s)%nat with (S (drawn s' - S (drawn s)))
        by lia.
      reflexivity.
    + apply randint_raise in Ea. subst s1. injection H as _ <-.
      rewrite Nat.sub_diag. cbn. split; [lia | now rewrite app_nil_r].
    + now apply randint_no_outcome in Ea.
Qed.

(** X12.  Whatever the input and the outcome, [run_fermat N k] draws at most
    [k - 1] witnesses and makes one call of [mod_exp] per witness drawn, in
    the order of the draws, each on the witness, the exponent [N - 1] and
    the modulus [N]. *)
Theorem run_fermat_calls
  (rnd : nat -> Z) (limit : nat) (N k : Z) (s : state) :
  let s' := snd (run_fermat rnd limit N k s) in
  (drawn s <= drawn s' <= drawn s + Z.to_nat (k - 1))%nat
  /\ calls s'
     = calls s ++ map (fun i => (witness_at rnd N i, PyInt (N - 1), N))
                      (seq (drawn s) (drawn s' - drawn s)).
Proof.
  cbn zeta. unfold run_fermat.
  destruct (fermat_loop_calls rnd limit N (py_range 1 k) s) as [Hd Hc].
  pose proof (fermat_loop_draws rnd limit N (py_range 1 k) s) as Hb.
  rewrite py_range_length in Hb.
  split; [split; assumption | exact Hc].
Qed.

(** ** [run_miller_rabin] against [run_fermat] *)

(** X13.  Whatever the input and the outcome, [run_miller_rabin N k] draws at
    most [k - 1] witnesses and calls [mod_exp] on the modulus [N] and on
    witnesses of its own draws only. *)
Theorem run_miller_rabin_calls
  (rnd : nat -> Z) (limit gas : nat) (N k : Z) (s : state) :
  let s' := snd (run_miller_rabin rnd limit gas N k s) in
  (drawn s <= drawn s' <= drawn s + Z.to_nat (k - 1))%nat
  /\ extends (call_of rnd N (drawn s) (drawn s')) s s'.
Proof.
  cbn zeta. unfold run_miller_rabin.
  pose proof (miller_rabin_loop_draws rnd limit gas N (py_range 1 k) s) as Hb.
  rewrite py_range_length in Hb.
  destruct (miller_rabin_loop rnd limit gas N (py_range 1 k) s)
    as [o s'] eqn:E.
  apply miller_rabin_loop_trace in E. destruct E as [Hd Hx].
  cbn [snd] in *. split; [split; assumption | exact Hx].
Qed.

(** Miller-Rabin is at least as strict as Fermat: on the same draws,
    whenever [run_miller_rabin] answers "prime", so does [run_fermat]. *)
Lemma miller_rabin_loop_implies_fermat
  (rnd : nat -> Z) (limit gas : nat) (N : Z) :
  forall trials s t,
    drawn s = drawn t ->
    fst (miller_rabin_loop rnd limit gas N trials s) = Ok "prime"%string ->
    fst (fermat_loop rnd limit N trials t) = Ok "prime"%string.
Proof.
  induction trials as [|i rest IH]; intros s t Hst H; [reflexivity|].
  cbn [miller_rabin_loop] in H. cbn [fermat_loop].
  unfold bind at 1 in H. unfold bind at 1.
  unfold randint in *. rewrite <- Hst.
  destruct (N - 1 <? 1); [discriminate H|].
  set (a := 1 + rnd (drawn s) mod (N - 1 - 1 + 1)) in *.
  unfold bind at 1 in H. unfold bind at 1.
  unfold call_mod_exp at 1 in H. unfold call_mod_exp at 1.
  cbn [drawn calls] in *.
  destruct (mod_exp limit a (PyInt (N - 1)) N) as [r| |];
    try discriminate H.
  destruct (r =? 1); [|discriminate H].
  cbn [negb].
  unfold bind at 1 in H.
  match type of H with
  | context [descent limit gas a N ?e ?z ?s0] =>
      pose proof (descent_drawn limit gas a N e z s0) as Hd;
      destruct (descent limit gas a N e z s0) as [[ez| |] s3]
  end; try discriminate H.
  cbn [snd drawn] in Hd.
  unfold bind at 1, lift in H.
  destruct (py_mod (snd ez) N) as [m| |]; try discriminate H.
  destruct (negb (m =? N - 1) && negb (m =? 1)); [discriminate H|].
  apply (IH s3); [|exact H]. cbn [drawn]. exact Hd.
Qed.

(** X14.  On the same draws, whenever [run_miller_rabin] answers "prime", so
    does [run_fermat]. *)
Theorem run_miller_rabin_implies_run_fermat
  (rnd : nat -> Z) (limit gas : nat) (N k : Z) (s t : state) :
  drawn s = drawn t ->
  fst (run_miller_rabin rnd limit gas N k s) = Ok "prime"%string ->
  fst (run_fermat rnd limit N k t) = Ok "prime"%string.
Proof. apply miller_rabin_loop_implies_fermat. Qed.

Lemma run_miller_rabin_implies_run_fermat_witness :
  fst (run_fermat (fun _ => 0) 8 7 3 initial) = Ok "prime"%string.
Proof.
  apply (run_miller_rabin_implies_run_fermat
           (fun _ => 0) 8 8 7 3 initial initial);
    [reflexivity | vm_compute; reflexivity].
Defined.

(** ** [prime_test] at the edges of its domain *)

(** X17.  [prime_test] validates nothing either: for [k <= 1] it returns
    ("prime", "prime") for every [N] and draws nothing; for [N < 2] and
    [k >= 2] it raises [ValueError] from the first draw of [run_fermat],
    and [run_miller_rabin] is not run. *)
Theorem prime_test_edges
  (rnd : nat -> Z) (limit gas : nat) (N k : Z) (s : state) :
  (k <= 1 ->
   prime_test rnd limit gas N k s
   = (Ok ("prime"%string, "prime"%string), s))
  /\ (N < 2 -> 2 <= k ->
      prime_test rnd limit gas N k s = (Raise ValueError, s)).
Proof.
  split.
  - intros Hk. unfold prime_test, run_fermat, run_miller_rabin.
    rewrite py_range_empty by lia. reflexivity.
  - intros HN Hk. unfold prime_test, run_fermat, bind.
    rewrite fermat_loop_small_modulus;
      [reflexivity | lia | apply py_range_nonempty; lia].
Qed.

Lemma prime_test_edges_witness :
  prime_test (fun _ => 0) 8 8 15 1 initial
  = (Ok ("prime"%string, "prime"%string), initial)
  /\ prime_test (fun _ => 0) 8 8 1 4 initial = (Raise ValueError, initial).
Proof.
  split.
  - apply (prime_test_edges (fun _ => 0) 8 8 15 1 initial). lia.
  - apply (prime_test_edges (fun _ => 0) 8 8 1 4 initial); lia.
Defined.

(** ** The estimators against each other *)

(** X19.  [4 ** k] is [2 ** (2 * k)] on the integers: for every [k >= 0],
    [mprobability k] is [fprobability (2 * k)]. *)
Theorem mprobability_is_fprobability_of_double (k : Z) :
  0 <= k -> mprobability k = fprobability (2 * k).
Proof.
  intros Hk. unfold mprobability, fprobability, py_pow4, py_pow2.
  destruct (Z.leb_spec 0 k) as [_|]; [|lia].
  destruct (Z.leb_spec 0 (2 * k)) as [_|]; [|lia].
  replace (4 ^ k) with (2 ^ (2 * k)); [reflexivity|].
  rewrite Z.pow_mul_r by lia. reflexivity.
Qed.

Lemma mprobability_is_fprobability_of_double_witness :
  mprobability 5 = fprobability (2 * 5).
Proof. apply (mprobability_is_fprobability_of_double 5). lia. Defined.

(** X20.  For every [k >= 0] the estimators raise nothing and return a float of
    [0, 1]; at [k = 0] both return 0.0. *)
Theorem estimators_within_unit_interval (k : Z) :
  0 <= k ->
  outcome_leb (Ok Float.zero) (fprobability k) = true
  /\ outcome_leb (fprobability k) (Ok Float.one) = true
  /\ outcome_leb (Ok Float.zero) (mprobability k) = true
  /\ outcome_leb (mprobability k) (Ok Float.one) = true
  /\ fprobability 0 = Ok Float.zero
  /\ mprobability 0 = Ok Float.zero.
Proof.
  intros Hk.
  assert (H : outcome_leb (Ok Float.zero) (fprobability k)
              && outcome_leb (fprobability k) (Ok Float.one)
              && outcome_leb (Ok Float.zero) (mprobability k)
              && outcome_leb (mprobability k) (Ok Float.one) = true).
  { destruct (Z.le_gt_cases k 53) as [Hle|Hgt].
    - apply (forallb_py_range
               (fun k =>
                  outcome_leb (Ok Float.zero) (fprobability k)
                  && outcome_leb (fprobability k) (Ok Float.one)
                  && outcome_leb (Ok Float.zero) (mprobability k)
                  && outcome_leb (mprobability k) (Ok Float.one)) 0 54);
        [vm_compute; reflexivity | lia].
    - rewrite !fprobability_saturates, !mprobability_saturates by lia.
      reflexivity. }
  repeat (apply andb_prop in H; destruct H as [H ?]).
  repeat (split; [assumption|]).
  split; vm_compute; reflexivity.
Qed.

Lemma estimators_within_unit_interval_witness :
  outcome_leb (Ok Float.zero) (fprobability 7) = true
  /\ outcome_leb (fprobability 7) (Ok Float.one) = true
  /\ outcome_leb (Ok Float.zero) (mprobability 7) = true
  /\ outcome_leb (mprobability 7) (Ok Float.one) = true
  /\ fprobability 0 = Ok Float.zero
  /\ mprobability 0 = Ok Float.zero.
Proof. apply (estimators_within_unit_interval 7). lia. Defined.

(** ** Integers as binary64 values *)

Lemma digits2_bounds (p : positive) :
  2 ^ (Zpos (digits2_pos p) - 1) <= Zpos p < 2 ^ Zpos (digits2_pos p).
Proof.
  induction p as [p IH|p IH|].
  - cbn [digits2_pos]. rewrite Pos2Z.inj_succ.
    replace (Z.succ (Zpos (digits2_pos p)) - 1)
      with (Z.succ (Zpos (digits2_pos p) - 1)) by lia.
    rewrite !Z.pow_succ_r by lia. lia.
  - cbn [digits2_pos]. rewrite Pos2Z.inj_succ.
    replace (Z.succ (Zpos (digits2_pos p)) - 1)
      with (Z.succ (Zpos (digits2_pos p) - 1)) by lia.
    rewrite !Z.pow_succ_r by lia. lia.
  - cbn. lia.
Qed.

Lemma digits2_unique (p : positive) (d : Z) :
  2 ^ (d - 1) <= Zpos p < 2 ^ d -> Zpos (digits2_pos p) = d.
Proof.
  intros [Hlo Hhi]. pose proof (digits2_bounds p) as [Hlo' Hhi'].
  set (d0 := Zpos (digits2_pos p)) in *.
  assert (0 < d0) by (unfold d0; lia).
  destruct (Z.lt_trichotomy d0 d) as [H1|[H1|H1]]; [exfalso|exact H1|exfalso].
  - assert (2 ^ d0 <= 2 ^ (d - 1)) by (apply Z.pow_le_mono_r; lia). lia.
  - assert (2 ^ d <= 2 ^ (d0 - 1)) by (apply Z.pow_le_mono_r; lia). lia.
Qed.

Lemma binary_round_aux_53 (s : bool) (M : positive) (e : Z) :
  Zpos (digits2_pos M) = 53 -> -1074 <= e <= 971 ->
  binary_round_aux 53 1024 s (Zpos M) e loc_Exact = S754_finite s M e.
Proof.
  intros Hd He. unfold binary_round_aux, shr_fexp.
  cbn [Zdigits2 shr_record_of_loc]. rewrite Hd.
  replace (fexp 53 1024 (53 + e) - e) with 0
    by (unfold fexp, emin; lia).
  cbn [shr shr_m loc_of_shr_record round_nearest_even Zdigits2].
  rewrite Hd.
  replace (fexp 53 1024 (53 + e) - e) with 0
    by (unfold fexp, emin; lia).
  cbn [shr shr_m shr_record_of_loc].
  destruct (Z.leb_spec e (1024 - 53)); [reflexivity | lia].
Qed.

Lemma binary_round_aux_54 (s : bool) (M : positive) (e : Z) :
  Zpos (digits2_pos M) = 53 -> -1075 <= e <= 970 ->
  binary_round_aux 53 1024 s (Zpos (xO M)) e loc_Exact
  = S754_finite s M (e + 1).
Proof.
  intros Hd He. unfold binary_round_aux, shr_fexp.
  cbn [Zdigits2 shr_record_of_loc digits2_pos].
  rewrite Pos2Z.inj_succ, Hd.
  replace (fexp 53 1024 (Z.succ 53 + e) - e) with 1
    by (unfold fexp, emin; lia).
  cbn [shr iter_pos shr_1 orb shr_m loc_of_shr_record round_nearest_even
       Zdigits2].
  rewrite Hd.
  replace (fexp 53 1024 (53 + (e + 1)) - (e + 1)) with 0
    by (unfold fexp, emin; lia).
  cbn [shr shr_m shr_record_of_loc].
  destruct (Z.leb_spec (e + 1) (1024 - 53)); [reflexivity | lia].
Qed.

Lemma iter_xO_value (p k : positive) :
  Zpos (Pos.iter xO p k) = Zpos p * 2 ^ Zpos k.
Proof.
  induction k as [|k IH] using Pos.peano_ind.
  - cbn. lia.
  - rewrite Pos.iter_succ, Pos2Z.inj_xO, IH, Pos2Z.inj_succ.
    rewrite Z.pow_succ_r by lia. ring.
Qed.

Lemma shl_align_value (mx : positive) (ex ex' : Z) :
  ex' <= ex ->
  snd (shl_align mx ex ex') = ex'
  /\ Zpos (fst (shl_align mx ex ex')) = Zpos mx * 2 ^ (ex - ex').
Proof.
  intros H. unfold shl_align.
  destruct (ex' - ex) as [|k|k] eqn:E; try lia; cbn [fst snd].
  - replace (ex - ex') with 0 by lia. split; lia.
  - split; [reflexivity|]. rewrite iter_xO_value. f_equal. f_equal. lia.
Qed.

(** The float of an integer [0 < m < 2^53] has a mantissa of 53 bits and
    denotes [m]. *)
Lemma of_Z_shape (m : Z) :
  0 < m < 2 ^ 53 ->
  exists M e, Float.of_Z m = S754_finite false M e
              /\ Zpos (digits2_pos M) = 53
              /\ -52 <= e <= 0
              /\ Zpos M = m * 2 ^ (- e).
Proof.
  intros Hm. destruct m as [|p|p]; try lia.
  pose proof (digits2_bounds p) as Hb.
  set (d := Zpos (digits2_pos p)) in *.
  assert (Hd : 1 <= d <= 53).
  { split; [unfold d; lia|].
    destruct (Z.le_gt_cases d 53) as [|Hgt]; [assumption|exfalso].
    assert (2 ^ 53 <= 2 ^ (d - 1)) by (apply Z.pow_le_mono_r; lia). lia. }
  unfold Float.of_Z, Float.normalize, binary_normalize, binary_round.
  fold d.
  replace (fexp Float.prec Float.emax (d + 0)) with (d - 53)
    by (unfold fexp, emin, Float.prec, Float.emax; lia).
  destruct (shl_align_value p 0 (d - 53) ltac:(lia)) as [He HM].
  destruct (shl_align p 0 (d - 53)) as [mz ez]. cbn [fst snd] in He, HM.
  subst ez. replace (0 - (d - 53)) with (53 - d) in HM by lia.
  assert (Hdz : Zpos (digits2_pos mz) = 53).
  { apply digits2_unique. rewrite HM.
    replace (2 ^ (53 - 1)) with (2 ^ (d - 1) * 2 ^ (53 - d))
      by (rewrite <- Z.pow_add_r by lia; f_equal; lia).
    replace (2 ^ 53) with (2 ^ d * 2 ^ (53 - d))
      by (rewrite <- Z.pow_add_r by lia; f_equal; lia).
    assert (0 < 2 ^ (53 - d)) by (apply Z.pow_pos_nonneg; lia).
    split; [apply Z.mul_le_mono_nonneg_r; lia
           | apply Z.mul_lt_mono_pos_r; lia]. }
  exists mz, (d - 53). split.
  - apply binary_round_aux_53; [exact Hdz | lia].
  - split; [exact Hdz|]. split; [lia|].
    rewrite HM. f_equal. f_equal. lia.
Qed.

(** A float of that shape is the float of the integer it denotes. *)
Lemma shape_is_of_Z (M : positive) (e m : Z) :
  Zpos (digits2_pos M) = 53 -> e <= 0 -> Zpos M = m * 2 ^ (- e) ->
  S754_finite false M e = Float.of_Z m.
Proof.
  intros Hd He HM.
  pose proof (digits2_bounds M) as HbM. rewrite Hd in HbM.
  assert (Hpe : 0 < 2 ^ (- e)) by (apply Z.pow_pos_nonneg; lia).
  assert (Hm : 0 < m < 2 ^ 53) by nia.
  destruct (of_Z_shape m Hm) as (M' & e' & -> & Hd' & He' & HM').
  pose proof (digits2_bounds M') as HbM'. rewrite Hd' in HbM'.
  assert (Hpe' : 0 < 2 ^ (- e')) by (apply Z.pow_pos_nonneg; lia).
  assert (Hee : e = e').
  { destruct (Z.lt_trichotomy e e') as [H|[H|H]]; [exfalso|exact H|exfalso].
    - assert (E : 2 ^ (- e) = 2 ^ (- e') * 2 ^ (e' - e))
        by (rewrite <- Z.pow_add_r by lia; f_equal; lia).
      assert (2 <= 2 ^ (e' - e))
        by (change 2 with (2 ^ 1) at 1; apply Z.pow_le_mono_r; lia).
      rewrite E in HM. nia.
    - assert (E : 2 ^ (- e') = 2 ^ (- e) * 2 ^ (e - e'))
        by (rewrite <- Z.pow_add_r by lia; f_equal; lia).
      assert (2 <= 2 ^ (e - e'))
        by (change 2 with (2 ^ 1) at 1; apply Z.pow_le_mono_r; lia).
      rewrite E in HM'. nia. }
  subst e'. f_equal. apply Pos2Z.inj. congruence.
Qed.

(** ** Python's arithmetic on floats that denote integers *)

(** [float(m) == 0] *)
Lemma py_is_zero_of_Z (m : Z) :
  0 <= m < 2 ^ 53 ->
  py_is_zero (PyFloat (Float.of_Z m)) = (m =? 0).
Proof.
  intros Hm. destruct (Z.eq_dec m 0) as [->|Hm0]; [reflexivity|].
  destruct (of_Z_shape m ltac:(lia)) as (M & e & -> & _).
  destruct (Z.eqb_spec m 0); [contradiction | reflexivity].
Qed.

(** [float(m) // 2] *)
Lemma py_floordiv2_of_Z (m : Z) :
  0 <= m < 2 ^ 53 ->
  py_floordiv2 (PyFloat (Float.of_Z m)) = PyFloat (Float.of_Z (m / 2)).
Proof.
  intros Hm. destruct (Z.eq_dec m 0) as [->|Hm0]; [reflexivity|].
  destruct (of_Z_shape m ltac:(lia)) as (M & e & -> & Hd & He & HM).
  cbn [py_floordiv2 Float.floordiv2 cond_Zopp]. unfold Float.of_Z.
  do 2 f_equal.
  rewrite Z.shiftr_div_pow2 by lia. rewrite HM.
  replace (1 - e) with (1 + - e) by lia.
  rewrite Z.pow_add_r, Z.pow_1_r by lia.
  apply Z.div_mul_cancel_r; [lia|].
  apply Z.pow_nonzero; lia.
Qed.

Lemma normalize_power_is_one (e : Z) :
  -52 <= e <= 0 -> Float.normalize (2 ^ (- e)) e = Float.one.
Proof.
  intros He.
  pose (P := fun e => match Float.normalize (2 ^ (- e)) e with
                      | S754_finite false M e' =>
                          Pos.eqb M (2 ^ 52) && (e' =? -52)
                      | _ => false
                      end).
  assert (H : P e = true).
  { apply (forallb_py_range P (-52) 1); [vm_compute; reflexivity | lia]. }
  unfold P in H. clear P.
  destruct (Float.normalize (2 ^ (- e)) e) as [| | |[] M e']; try discriminate.
  apply andb_prop in H. destruct H as [H1 H2].
  apply Pos.eqb_eq in H1. apply Z.eqb_eq in H2. subst. reflexivity.
Qed.

(** [float(m) % 2 == 0] *)
Lemma py_mod2_of_Z (m : Z) :
  0 <= m < 2 ^ 53 ->
  py_is_zero (py_mod2 (PyFloat (Float.of_Z m))) = (m mod 2 =? 0).
Proof.
  intros Hm. destruct (Z.eq_dec m 0) as [->|Hm0]; [reflexivity|].
  destruct (of_Z_shape m ltac:(lia)) as (M & e & -> & Hd & He & HM).
  cbn [py_mod2 Float.mod2 cond_Zopp].
  destruct (Z.leb_spec 1 e) as [|_]; [lia|].
  assert (Hpe : 0 < 2 ^ (- e)) by (apply Z.pow_pos_nonneg; lia).
  replace (Zpos M mod 2 ^ (1 - e)) with (m mod 2 * 2 ^ (- e)).
  2:{ rewrite HM. replace (1 - e) with (1 + - e) by lia.
      rewrite Z.pow_add_r, Z.pow_1_r by lia.
      symmetry. apply Z.mul_mod_distr_r; lia. }
  pose proof (Z.mod_pos_bound m 2 ltac:(lia)) as Hb.
  destruct (Z.eqb_spec (m mod 2) 0) as [E|E].
  - rewrite E. reflexivity.
  - replace (m mod 2) with 1 by lia. rewrite Z.mul_1_l.
    rewrite normalize_power_is_one by lia. reflexivity.
Qed.

(** On a float exponent that denotes an integer below [2^53], [mod_exp]
    does what it does on that integer. *)
Lemma mod_exp_of_Z (limit : nat) :
  forall x m N,
    0 <= m < 2 ^ 53 ->
    mod_exp limit x (PyFloat (Float.of_Z m)) N = mod_exp limit x (PyInt m) N.
Proof.
  induction limit as [|l IH]; intros x m N Hm; [reflexivity|].
  rewrite !mod_exp_unfold.
  rewrite py_is_zero_of_Z, py_mod2_of_Z, py_floordiv2_of_Z by assumption.
  cbn [py_is_zero py_floordiv2 py_mod2].
  rewrite IH; [reflexivity|].
  split; [apply Z.div_pos; lia | apply Z.div_lt_upper_bound; lia].
Qed.

Lemma div_eucl_exact (a b q : Z) :
  b <> 0 -> a = q * b -> Z.div_eucl a b = (q, 0).
Proof.
  intros Hb ->.
  pose proof (Z.div_mul q b Hb) as Hq.
  pose proof (Z.mod_mul q b Hb) as Hr.
  unfold Z.div, Z.modulo in Hq, Hr.
  destruct (Z.div_eucl (q * b) b) as [q' r']. now subst.
Qed.

Lemma shape_digits (M : positive) (e : Z) (p : positive) :
  Zpos (digits2_pos M) = 53 -> e <= 0 -> Zpos M = Zpos p * 2 ^ (- e) ->
  Zpos (digits2_pos p) = 53 + e.
Proof.
  intros Hd He HM. apply digits2_unique.
  pose proof (digits2_bounds M) as Hb. rewrite Hd, HM in Hb.
  assert (Hpe : 0 < 2 ^ (- e)) by (apply Z.pow_pos_nonneg; lia).
  assert (He52 : -52 <= e).
  { destruct (Z.le_gt_cases (-52) e) as [|Hlt]; [assumption|exfalso].
    assert (2 ^ 53 <= 2 ^ (- e)) by (apply Z.pow_le_mono_r; lia). nia. }
  replace (2 ^ (53 - 1)) with (2 ^ (53 + e - 1) * 2 ^ (- e)) in Hb
    by (rewrite <- Z.pow_add_r by lia; f_equal; lia).
  replace (2 ^ 53) with (2 ^ (53 + e) * 2 ^ (- e)) in Hb
    by (rewrite <- Z.pow_add_r by lia; f_equal; lia).
  split; nia.
Qed.

(** [z / 2] for an even integer [0 < z < 2^54] is the float of its half,
    exactly. *)
Lemma int_truediv_even (p : positive) :
  Zpos p < 2 ^ 53 ->
  int_truediv (Zpos (xO p)) 2 = Ok (Float.of_Z (Zpos p)).
Proof.
  intros Hp.
  destruct (of_Z_shape (Zpos p) ltac:(lia)) as (M & e & -> & Hd & He & HM).
  pose proof (shape_digits M e p Hd ltac:(lia) HM) as Hdp.
  unfold int_truediv. cbn [Z.eqb Float.exact_of_Z].
  unfold Float.div, SFdiv.
  assert (Hcore : SFdiv_core_binary Float.prec Float.emax
                    (Zpos (xO p)) 0 2 0
                  = (Zpos (xO M), e - 1, loc_Exact)).
  { unfold SFdiv_core_binary.
    cbn [Zdigits2 digits2_pos]. rewrite Pos2Z.inj_succ, Hdp.
    replace (Z.min (fexp Float.prec Float.emax
                      (Z.succ (53 + e) + 0 - (Z.pos (Pos.succ 1) + 0)))
                   (0 - 0))
      with (e - 1)
      by (unfold fexp, emin, Float.prec, Float.emax; cbn [Pos.succ]; lia).
    replace (0 - 0 - (e - 1)) with (1 - e) by lia.
    assert (Hsh : match 1 - e with
                  | Z0 => Zpos (xO p)
                  | Zpos _ => Z.shiftl (Zpos (xO p)) (1 - e)
                  | Zneg _ => 0
                  end = Zpos (xO M) * 2).
    { destruct (1 - e) as [|k|k] eqn:Ek; try lia.
      rewrite <- Ek, Z.shiftl_mul_pow2 by lia.
      rewrite (Pos2Z.inj_xO M), HM, (Pos2Z.inj_xO p).
      replace (1 - e) with (1 + - e) by lia.
      rewrite Z.pow_add_r, Z.pow_1_r by lia. ring. }
    rewrite Hsh.
    rewrite (div_eucl_exact _ 2 (Zpos (xO M))) by lia.
    reflexivity. }
  rewrite Hcore.
  rewrite binary_round_aux_54 by (try assumption; lia).
  replace (e - 1 + 1) with e by lia. reflexivity.
Qed.

(** [f / 2] for a float that denotes an even integer [0 < m < 2^53] is
    the float of its half, exactly. *)
Lemma float_truediv_even (m : Z) :
  0 < m < 2 ^ 53 -> m mod 2 = 0 ->
  float_truediv (Float.of_Z m) Float.two = Ok (Float.of_Z (m / 2)).
Proof.
  intros Hm Hev.
  destruct (of_Z_shape m Hm) as (M & e & -> & Hd & He & HM).
  unfold float_truediv.
  change Float.two with (S754_finite false 4503599627370496 (-51)).
  cbn [Float.eqb SFeqb SFcompare Float.zero]. cbv iota.
  unfold Float.div, SFdiv.
  assert (Hcore : SFdiv_core_binary Float.prec Float.emax
                    (Zpos M) e (Zpos 4503599627370496) (-51)
                  = (Zpos (xO M), e - 2, loc_Exact)).
  { unfold SFdiv_core_binary.
    cbn [Zdigits2]. rewrite Hd.
    change (Z.pos (digits2_pos 4503599627370496)) with 53.
    replace (Z.min (fexp Float.prec Float.emax (53 + e - (53 + -51)))
                   (e - -51))
      with (e - 2)
      by (unfold fexp, emin, Float.prec, Float.emax; lia).
    replace (e - -51 - (e - 2)) with 53 by lia.
    cbv iota.
    rewrite Z.shiftl_mul_pow2 by lia.
    rewrite (div_eucl_exact _ _ (Zpos (xO M)));
      [reflexivity | discriminate |].
    rewrite (Pos2Z.inj_xO M).
    change (2 ^ 53) with (2 * 4503599627370496). ring. }
  rewrite Hcore.
  rewrite binary_round_aux_54 by (try assumption; lia).
  replace (e - 2 + 1) with (e - 1) by lia.
  f_equal. apply shape_is_of_Z; [exact Hd | lia |].
  rewrite HM.
  replace (- (e - 1)) with (1 + - e) by lia.
  rewrite Z.pow_add_r, Z.pow_1_r by lia.
  pose proof (Z.div_mod m 2 ltac:(lia)) as Hdm. rewrite Hev in Hdm.
  rewrite Hdm at 1. ring.
Qed.


(** ** The descent below [2^54] *)

Lemma py_truediv2_int_even (z : Z) :
  0 < z < 2 ^ 54 -> z mod 2 = 0 ->
  py_truediv2 (PyInt z) = Ok (PyFloat (Float.of_Z (z / 2))).
Proof.
  intros Hz Hev.
  destruct z as [|[p|p|]|]; try lia; try discriminate Hev.
  { exfalso. rewrite Pos2Z.inj_xI, Z.add_comm, Z.mul_comm in Hev.
    rewrite Z_mod_plus_full in Hev. discriminate Hev. }
  cbn [py_truediv2].
  rewrite int_truediv_even.
  - do 2 f_equal. rewrite (Pos2Z.inj_xO p), Z.mul_comm.
    now rewrite Z.div_mul by lia.
  - rewrite (Pos2Z.inj_xO p) in Hz.
    change (2 ^ 54) with (2 * 2 ^ 53) in Hz. lia.
Qed.

Lemma py_truediv2_float_even (m : Z) :
  0 < m < 2 ^ 53 -> m mod 2 = 0 ->
  py_truediv2 (PyFloat (Float.of_Z m)) = Ok (PyFloat (Float.of_Z (m / 2))).
Proof.
  intros Hm Hev. cbn [py_truediv2]. now rewrite float_truediv_even.
Qed.

(** From an exponent that is the integer [v < 2^54], or the float of the
    integer [v < 2^53], the descent raises nothing when the limit and the
    gas cover the bit length of [v]; it leaves [z] as it was, or, having
    started from [z = 1], ends on [z = a^w mod N] for a [w] that is half
    of [v] or has [a^(2w) mod N = 1]. *)
Lemma descent_exact (limit : nat) (a N : Z) :
  2 <= N ->
  forall (g : nat) (v : Z) (e : pynum) (z : Z) (s : state),
    (e = PyInt v /\ v < 2 ^ 54) \/ (e = PyFloat (Float.of_Z v) /\ v < 2 ^ 53) ->
    0 < v < 2 ^ Z.of_nat g ->
    v < 2 ^ (Z.of_nat limit - 1) ->
    exists e' z' s',
      descent limit g a N e z s = (Ok (e', z'), s')
      /\ (z' = z
          \/ (z = 1
              /\ exists w, 0 < w /\ z' = a ^ w mod N
                           /\ (2 * w = v \/ a ^ (2 * w) mod N = 1))).
Proof.
  intros HN. induction g as [|g IH]; intros v e z s Hrep Hv Hlim.
  { cbn in Hv. lia. }
  assert (Hpar : py_is_zero (py_mod2 e) = (v mod 2 =? 0)).
  { destruct Hrep as [[-> _]|[-> Hb]]; [reflexivity|].
    apply py_mod2_of_Z. lia. }
  cbn [descent]. rewrite Hpar.
  destruct (Z.eqb_spec (v mod 2) 0) as [Hev|Hodd]; cbn [andb];
    [|eexists; eexists; eexists; split; [reflexivity | now left]].
  destruct (Z.eqb_spec z 1) as [->|Hz];
    [|eexists; eexists; eexists; split; [reflexivity | now left]].
  assert (Hhalf : py_truediv2 e = Ok (PyFloat (Float.of_Z (v / 2)))).
  { destruct Hrep as [[-> Hb]|[-> Hb]].
    - apply py_truediv2_int_even; [lia | exact Hev].
    - apply py_truediv2_float_even; [lia | exact Hev]. }
  pose proof (Z.div_mod v 2 ltac:(lia)) as Hdm. rewrite Hev in Hdm.
  assert (Hw : 0 < v / 2) by lia.
  assert (Hw53 : v / 2 < 2 ^ 53).
  { destruct Hrep as [[_ Hb]|[_ Hb]].
    - change (2 ^ 54) with (2 * 2 ^ 53) in Hb. lia.
    - lia. }
  assert (Hwg : v / 2 < 2 ^ Z.of_nat g).
  { rewrite Nat2Z.inj_succ, Z.pow_succ_r in Hv by lia. lia. }
  unfold bind at 1, lift. rewrite Hhalf.
  unfold bind at 1, call_mod_exp at 1.
  rewrite mod_exp_of_Z by lia.
  rewrite (mod_exp_value limit a (v / 2) N) by lia.
  match goal with
  | |- context [descent limit g a N ?e1 ?z1 ?s1] =>
      destruct (IH (v / 2) e1 z1 s1 ltac:(right; split; [reflexivity | lia])
                   ltac:(lia) ltac:(lia))
      as (e' & z' & s' & Hrun & Hpost)
  end.
  exists e', z', s'. split; [exact Hrun|]. right. split; [reflexivity|].
  destruct Hpost as [->|[Hone (w & Hw0 & -> & Hww)]].
  - exists (v / 2). repeat split; try lia.
  - exists w. repeat split; try assumption. right.
    destruct Hww as [E|E]; [|exact E]. now rewrite E.
Qed.

(** Modulo a prime, 1 has the square roots 1 and [N - 1] only. *)
Lemma sqrt_of_one_prime (N z : Z) :
  Z.prime N -> 0 <= z < N -> z ^ 2 mod N = 1 -> z = 1 \/ z = N - 1.
Proof.
  intros Hp Hz Hsq. pose proof (Z.prime_ge_2 _ Hp) as HN.
  assert (Hd : (N | (z - 1) * (z + 1))).
  { apply Z.mod_divide; [lia|].
    replace ((z - 1) * (z + 1)) with (z ^ 2 - 1) by ring.
    rewrite Zminus_mod, Hsq, Z.mod_1_l by lia. reflexivity. }
  apply Z.divide_prime_mul in Hd; [|exact Hp].
  destruct Hd as [[c Hc]|[c Hc]]; [left | right].
  - assert (c = 0) by nia. subst c. lia.
  - assert (c = 1) by nia. subst c. lia.
Qed.

Section SmallModulus.

Variable rnd : nat -> Z.
Variable limit gas : nat.
Variable N : Z.
Hypothesis N_ge_2 : 2 <= N.
Hypothesis N_exact : N - 1 < 2 ^ 54.
Hypothesis N_limit : N - 1 < 2 ^ (Z.of_nat limit - 1).
Hypothesis N_gas : N - 1 < 2 ^ Z.of_nat gas.

(** On a modulus [2 <= N <= 2^54] that the limit and the gas cover, every
    run of [run_miller_rabin] ends in a verdict. *)
Lemma miller_rabin_loop_verdict (trials : list Z) :
  forall s,
    exists v, fst (miller_rabin_loop rnd limit gas N trials s) = Ok v
              /\ (v = "prime"%string \/ v = "composite"%string).
Proof.
  induction trials as [|i rest IH]; intros s.
  { eexists. split; [reflexivity | now left]. }
  cbn [miller_rabin_loop]. unfold bind at 1, randint.
  destruct (Z.ltb_spec (N - 1) 1) as [|_]; [lia|].
  set (a := 1 + rnd (drawn s) mod (N - 1 - 1 + 1)).
  unfold bind at 1, call_mod_exp at 1. cbn [drawn calls].
  rewrite (mod_exp_value limit a (N - 1) N) by lia.
  destruct (a ^ (N - 1) mod N =? 1);
    [|eexists; split; [reflexivity | now right]].
  unfold bind at 1.
  match goal with
  | |- context [descent limit gas a N ?e1 ?z1 ?s1] =>
      destruct (descent_exact limit a N N_ge_2 gas (N - 1) e1 z1 s1
                  ltac:(left; split; [reflexivity | lia])
                  ltac:(lia) ltac:(lia))
      as (e' & z' & s' & -> & _)
  end.
  unfold bind at 1, lift, py_mod. cbn [snd].
  destruct (Z.eqb_spec N 0) as [|_]; [lia|].
  destruct (negb (z' mod N =? N - 1) && negb (z' mod N =? 1));
    [eexists; split; [reflexivity | now right] | apply IH].
Qed.

(** On a prime [N <= 2^54], no witness makes [run_miller_rabin] answer
    "composite". *)
Lemma miller_rabin_loop_accepts_prime (trials : list Z) :
  Z.prime N ->
  forall s,
    fst (miller_rabin_loop rnd limit gas N trials s) = Ok "prime"%string.
Proof.
  intros Hp. induction trials as [|i rest IH]; intros s; [reflexivity|].
  cbn [miller_rabin_loop]. unfold bind at 1, randint.
  destruct (Z.ltb_spec (N - 1) 1) as [|_]; [lia|].
  set (a := 1 + rnd (drawn s) mod (N - 1 - 1 + 1)).
  assert (Ha : 1 <= a <= N - 1).
  { pose proof (Z.mod_pos_bound (rnd (drawn s)) (N - 1 - 1 + 1) ltac:(lia)).
    unfold a. lia. }
  assert (Hflt : a ^ (N - 1) mod N = 1).
  { apply Z.fermat_nz; [exact Hp|]. rewrite Z.mod_small by lia. lia. }
  unfold bind at 1, call_mod_exp at 1. cbn [drawn calls].
  rewrite (mod_exp_value limit a (N - 1) N) by lia.
  rewrite Hflt. cbn [Z.eqb Pos.eqb].
  unfold bind at 1.
  match goal with
  | |- context [descent limit gas a N ?e1 ?z1 ?s1] =>
      destruct (descent_exact limit a N N_ge_2 gas (N - 1) e1 z1 s1
                  ltac:(left; split; [reflexivity | lia])
                  ltac:(lia) ltac:(lia))
      as (e' & z' & s' & -> & Hpost)
  end.
  assert (Hz' : z' = 1 \/ z' = N - 1).
  { destruct Hpost as [->|[_ (w & Hw & -> & Hww)]]; [now left|].
    apply sqrt_of_one_prime; [exact Hp | apply Z.mod_pos_bound; lia |].
    rewrite sq_mod, <- Z.pow_mul_r by lia.
    rewrite (Z.mul_comm w 2).
    destruct Hww as [E|E]; [now rewrite E | exact E]. }
  unfold bind at 1, lift, py_mod. cbn [snd].
  destruct (Z.eqb_spec N 0) as [|_]; [lia|].
  assert (Hmod : z' mod N = z') by (apply Z.mod_small; lia).
  rewrite Hmod.
  replace (negb (z' =? N - 1) && negb (z' =? 1)) with false; [apply IH|].
  destruct Hz' as [-> | ->].
  - rewrite andb_false_r. reflexivity.
  - rewrite Z.eqb_refl. reflexivity.
Qed.

End SmallModulus.

(** ** [mod_exp] and the descent on floats *)

(** X7.  A float exponent that denotes an integer [0 <= m < 2^53] gives what
    the integer gives, and so, on a modulus [N >= 2] and within the
    limit, the power [x^m mod N]. *)
Theorem mod_exp_float_exponent (limit : nat) (x m N : Z) :
  0 <= m < 2 ^ 53 ->
  mod_exp limit x (PyFloat (Float.of_Z m)) N = mod_exp limit x (PyInt m) N
  /\ (2 <= N -> m < 2 ^ (Z.of_nat limit - 1) ->
      mod_exp limit x (PyFloat (Float.of_Z m)) N = Ok (x ^ m mod N)).
Proof.
  intros Hm. split; [now apply mod_exp_of_Z|].
  intros HN Hlim. rewrite mod_exp_of_Z by assumption.
  apply mod_exp_value; lia.
Qed.

Lemma mod_exp_float_exponent_witness :
  mod_exp 10 3 (PyFloat (Float.of_Z 6)) 7 = mod_exp 10 3 (PyInt 6) 7
  /\ (2 <= 7 -> 6 < 2 ^ (Z.of_nat 10 - 1) ->
      mod_exp 10 3 (PyFloat (Float.of_Z 6)) 7 = Ok (3 ^ 6 mod 7)).
Proof.
  apply (mod_exp_float_exponent 10 3 6 7). vm_compute.
  intuition discriminate.
Defined.

(** X8.  The halving of the descent is exact below [2^54]: on an even integer
    [0 < z < 2^54], and on the float of an even integer [0 < z < 2^53],
    [exponent / 2] is the float of the half, and [exponent % 2 == 0] on
    that float tests the parity of the half. *)
Theorem halving_exact (z : Z) :
  z mod 2 = 0 ->
  (0 < z < 2 ^ 54 ->
   py_truediv2 (PyInt z) = Ok (PyFloat (Float.of_Z (z / 2))))
  /\ (0 < z < 2 ^ 53 ->
      py_truediv2 (PyFloat (Float.of_Z z)) = Ok (PyFloat (Float.of_Z (z / 2))))
  /\ (0 < z < 2 ^ 54 ->
      py_is_zero (py_mod2 (PyFloat (Float.of_Z (z / 2))))
      = (z / 2 mod 2 =? 0)).
Proof.
  intros Hev. split; [|split]; intros Hz.
  - now apply py_truediv2_int_even.
  - now apply py_truediv2_float_even.
  - apply py_mod2_of_Z.
    change (2 ^ 54) with (2 * 2 ^ 53) in Hz.
    pose proof (Z.div_mod z 2 ltac:(lia)). lia.
Qed.

Lemma halving_exact_witness :
  py_truediv2 (PyInt 12) = Ok (PyFloat (Float.of_Z (12 / 2)))
  /\ py_truediv2 (PyFloat (Float.of_Z 12))
     = Ok (PyFloat (Float.of_Z (12 / 2)))
  /\ py_is_zero (py_mod2 (PyFloat (Float.of_Z (12 / 2))))
     = (12 / 2 mod 2 =? 0).
Proof.
  split; [|split].
  - apply (halving_exact 12); [reflexivity|].
    vm_compute. intuition discriminate.
  - apply (halving_exact 12); [reflexivity|].
    vm_compute. intuition discriminate.
  - apply (halving_exact 12); [reflexivity|].
    vm_compute. intuition discriminate.
Defined.

(** ** [run_miller_rabin] below [2^54] *)

(** X15.  On a modulus [2 <= N <= 2^54] that the recursion limit and the gas
    cover, [run_miller_rabin] raises nothing: it answers "prime" or
    "composite". *)
Theorem run_miller_rabin_returns_verdict
  (rnd : nat -> Z) (limit gas : nat) (N k : Z) (s : state) :
  2 <= N -> N - 1 < 2 ^ 54 ->
  N - 1 < 2 ^ (Z.of_nat limit - 1) -> N - 1 < 2 ^ Z.of_nat gas ->
  exists v, fst (run_miller_rabin rnd limit gas N k s) = Ok v
            /\ (v = "prime"%string \/ v = "composite"%string).
Proof.
  intros. now apply miller_rabin_loop_verdict.
Qed.

Lemma run_miller_rabin_returns_verdict_witness :
  exists v,
    fst (run_miller_rabin (fun i => Z.of_nat i) 16 16 561 6 initial) = Ok v
    /\ (v = "prime"%string \/ v = "composite"%string).
Proof.
  apply (run_miller_rabin_returns_verdict
           (fun i => Z.of_nat i) 16 16 561 6 initial);
    [lia | vm_compute; reflexivity | vm_compute; reflexivity
     | vm_compute; reflexivity].
Defined.

(** X16.  On a prime [N <= 2^54] that the recursion limit and the gas cover,
    [run_miller_rabin] answers "prime" whatever the witnesses drawn. *)
Theorem run_miller_rabin_accepts_small_primes
  (rnd : nat -> Z) (limit gas : nat) (N k : Z) (s : state) :
  Z.prime N -> N - 1 < 2 ^ 54 ->
  N - 1 < 2 ^ (Z.of_nat limit - 1) -> N - 1 < 2 ^ Z.of_nat gas ->
  fst (run_miller_rabin rnd limit gas N k s) = Ok "prime"%string.
Proof.
  intros Hp H54 Hlim Hgas.
  apply miller_rabin_loop_accepts_prime; try assumption.
  now apply Z.prime_ge_2.
Qed.

Lemma run_miller_rabin_accepts_small_primes_witness :
  fst (run_miller_rabin (fun i => Z.of_nat i) 8 8 3 5 initial)
  = Ok "prime"%string.
Proof.
  apply (run_miller_rabin_accepts_small_primes
           (fun i => Z.of_nat i) 8 8 3 5 initial);
    [exact Z.prime_3 | vm_compute; reflexivity | vm_compute; reflexivity
     | vm_compute; reflexivity].
Defined.

(** ** [prime_test] on primes *)

Lemma fermat_loop_accepts_prime
  (rnd : nat -> Z) (limit : nat) (N : Z) (trials : list Z) (s : state) :
  Z.prime N -> N - 1 < 2 ^ (Z.of_nat limit - 1) ->
  fst (fermat_loop rnd limit N trials s) = Ok "prime"%string.
Proof.
  intros Hp Hlim. pose proof (Z.prime_ge_2 _ Hp) as HN.
  rewrite fermat_loop_verdict by assumption.
  replace (forallb _ _) with true; [reflexivity|].
  symmetry. apply forallb_forall. intros j _.
  unfold passes_fermat, witness_at. apply Z.eqb_eq.
  pose proof (Z.mod_pos_bound (rnd (drawn s + j)%nat) (N - 1 - 1 + 1)
                ltac:(lia)) as Hb.
  apply Z.fermat_nz; [exact Hp|].
  rewrite Z.mod_small by lia. lia.
Qed.

(** X18.  On a prime [N <= 2^54] that the recursion limit and the gas cover,
    [prime_test] returns ("prime", "prime") whatever the witnesses
    drawn. *)
Theorem prime_test_accepts_small_primes
  (rnd : nat -> Z) (limit gas : nat) (N k : Z) (s : state) :
  Z.prime N -> N - 1 < 2 ^ 54 ->
  N - 1 < 2 ^ (Z.of_nat limit - 1) -> N - 1 < 2 ^ Z.of_nat gas ->
  fst (prime_test rnd limit gas N k s)
  = Ok ("prime"%string, "prime"%string).
Proof.
  intros Hp H54 Hlim Hgas. pose proof (Z.prime_ge_2 _ Hp) as HN.
  unfold prime_test, run_fermat, run_miller_rabin, bind.
  pose proof (fermat_loop_accepts_prime rnd limit N (py_range 1 k) s Hp Hlim)
    as Hf.
  destruct (fermat_loop rnd limit N (py_range 1 k) s) as [o1 s1].
  cbn [fst] in Hf. subst o1.
  pose proof (miller_rabin_loop_accepts_prime rnd limit gas N HN H54 Hlim
                Hgas (py_range 1 k) Hp s1) as Hm.
  destruct (miller_rabin_loop rnd limit gas N (py_range 1 k) s1) as [o2 s2].
  cbn [fst] in Hm. subst o2. reflexivity.
Qed.

Lemma prime_test_accepts_small_primes_witness :
  fst (prime_test (fun i => Z.of_nat i) 8 8 3 10 initial)
  = Ok ("prime"%string, "prime"%string).
Proof.
  apply (prime_test_accepts_small_primes
           (fun i => Z.of_nat i) 8 8 3 10 initial);
    [exact Z.prime_3 | vm_compute; reflexivity | vm_compute; reflexivity
     | vm_compute; reflexivity].
Defined.
